(** * Embedded etcd test fixture (channeldb/kvdb/etcd/embed.go)

    A shallow embedding of [getFreePort] and [NewEmbeddedEtcdInstance].
    The process-wide cursor [lastPort] is a uint32 kept as a [Z] with its
    wrap-around written out.  Every call that leaves the package (the
    atomic add, [net.Listen], [Listener.Close], [embed.StartEtcd], the
    [select] on readiness, [context.WithCancel], [cancel], [Etcd.Close])
    is recorded in a trace held by the world, and the answers of the
    operating system and of the etcd library are oracles that may depend
    on the whole history.  Go code is written in a small state monad whose
    outcomes are a normal return or a panic. *)

From Stdlib Require Import ZArith String Ascii DecimalString DecimalN Lia.
From stdpp Require Import base list strings.

Local Open Scope string_scope.
Local Open Scope list_scope.
Local Open Scope Z_scope.

(** ** Data of the collaborating packages *)

Module url.
(** [url.URL]; the fixture only ever sets [Host]. *)
Record URL := { Host : string }.
End url.

Module embed.
(** The fields of [embed.Config] the fixture writes, and [Name] for the
    ones it leaves as [embed.NewConfig] made them. *)
Record Config := {
  Name : string;
  Dir : string;
  MaxTxnOps : Z;
  MaxRequestBytes : Z;
  LCUrls : list url.URL;
  LPUrls : list url.URL
}.

(** Assignments to one field. *)
Definition set_Dir (v : string) (c : Config) : Config :=
  {| Name := Name c; Dir := v; MaxTxnOps := MaxTxnOps c;
     MaxRequestBytes := MaxRequestBytes c; LCUrls := LCUrls c;
     LPUrls := LPUrls c |}.

Definition set_MaxTxnOps (v : Z) (c : Config) : Config :=
  {| Name := Name c; Dir := Dir c; MaxTxnOps := v;
     MaxRequestBytes := MaxRequestBytes c; LCUrls := LCUrls c;
     LPUrls := LPUrls c |}.

Definition set_MaxRequestBytes (v : Z) (c : Config) : Config :=
  {| Name := Name c; Dir := Dir c; MaxTxnOps := MaxTxnOps c;
     MaxRequestBytes := v; LCUrls := LCUrls c; LPUrls := LPUrls c |}.

Definition set_LCUrls (v : list url.URL) (c : Config) : Config :=
  {| Name := Name c; Dir := Dir c; MaxTxnOps := MaxTxnOps c;
     MaxRequestBytes := MaxRequestBytes c; LCUrls := v; LPUrls := LPUrls c |}.

Definition set_LPUrls (v : list url.URL) (c : Config) : Config :=
  {| Name := Name c; Dir := Dir c; MaxTxnOps := MaxTxnOps c;
     MaxRequestBytes := MaxRequestBytes c; LCUrls := LCUrls c; LPUrls := v |}.

(** A started [*embed.Etcd], known by its identity. *)
Inductive Etcd := EtcdRef (id : nat).
End embed.

(** A [context.Context] made by [context.WithCancel], known by its identity. *)
Inductive Context := CtxRef (id : nat).

(** Go's [error]: the fixture only passes errors on or makes one with
    [fmt.Errorf], so an error is its message. *)
Definition error := string.

(** Modelled from the spec: the declaration of [BackendConfig] (the
    connection descriptor) is in another file of the package; these are the
    fields the spec lists for it: cancellation context, host, user name,
    password and the transport-verification flag. *)
Record BackendConfig := {
  Ctx : Context;
  Host : string;
  User : string;
  Pass : string;
  InsecureSkipVerify : bool
}.

(** ** The world *)

Inductive Event :=
| EvAddUint32 (new : Z)
| EvListen (addr : string) (ok : bool)
| EvListenerClose (addr : string) (ok : bool)
| EvStartEtcd (cfg : embed.Config) (res : error + embed.Etcd)
| EvReadyNotify (e : embed.Etcd)
| EvTimeAfter (e : embed.Etcd) (d : Z)
| EvEtcdClose (e : embed.Etcd)
| EvWithCancel (c : Context)
| EvCancel (c : Context).

Record World := {
  lastPort : Z;
  nextRef : nat;
  trace : list Event
}.

Definition log (e : Event) (w : World) : World :=
  {| lastPort := lastPort w; nextRef := nextRef w; trace := trace w ++ [e] |}.

(** ** Go computations: state, and a return or a panic *)

Inductive Outcome (A : Type) :=
| Return (a : A)
| Panicked (msg : string)
| OutOfFuel.
Arguments Return {A} a.
Arguments Panicked {A} msg.
Arguments OutOfFuel {A}.

Definition Go (A : Type) : Type := World -> Outcome A * World.

Definition ret {A} (a : A) : Go A := fun w => (Return a, w).

Definition bind {A B} (m : Go A) (k : A -> Go B) : Go B :=
  fun w =>
    match m w with
    | (Return a, w') => k a w'
    | (Panicked msg, w') => (Panicked msg, w')
    | (OutOfFuel, w') => (OutOfFuel, w')
    end.

Definition panic {A} (msg : string) : Go A := fun w => (Panicked msg, w).

Declare Scope go_scope.
Delimit Scope go_scope with go.
Notation "x <- m ;; k" := (bind m (fun x => k))
  (at level 100, m at next level, right associativity) : go_scope.
Notation "m ;;; k" := (bind m (fun _ => k))
  (at level 100, right associativity) : go_scope.
Local Open Scope go_scope.

(** ** Constants of the package *)

Definition Second : Z := 1000000000.

Definition readyTimeout : Z := 10 * Second.

Definition defaultEtcdPort : Z := 2379.

Definition uint32_modulus : Z := 2 ^ 32.

(** The process starts with [lastPort = defaultEtcdPort]. *)
Definition init_world : World :=
  {| lastPort := defaultEtcdPort; nextRef := 0; trace := [] |}.

(** [atomic.AddUint32(&lastPort, delta)]: adds with wrap-around and returns
    the new value. *)
Definition atomic_AddUint32 (delta : Z) : Go Z :=
  fun w =>
    let new := (lastPort w + delta) mod uint32_modulus in
    (Return new,
     log (EvAddUint32 new)
       {| lastPort := new; nextRef := nextRef w; trace := trace w |}).

(** [%d] on an unsigned value. *)
Definition format_d (n : Z) : string :=
  NilEmpty.string_of_uint (N.to_uint (Z.to_N n)).

(** [fmt.Sprintf("127.0.0.1:%d", port)]. *)
Definition Sprintf_addr (port : Z) : string :=
  "127.0.0.1:" +:+ format_d port.

(** What [NewEmbeddedEtcdInstance] returns: a pointer to a [BackendConfig],
    a [func()] and an [error], each of which may be [nil]. *)
Record Result := {
  res_config : option BackendConfig;
  res_cleanup : option (Go unit);
  res_err : option error
}.

(** ** Values the fixture builds *)

(** The configuration lines 59-64 and 69-70 build from [embed.NewConfig()]. *)
Definition listen_config (base : embed.Config) (path : string)
    (client_port peer_port : Z) : embed.Config :=
  embed.set_LPUrls [ {| url.Host := Sprintf_addr peer_port |} ]
    (embed.set_LCUrls [ {| url.Host := Sprintf_addr client_port |} ]
       (embed.set_MaxRequestBytes (16384 * 1024)
          (embed.set_MaxTxnOps 8192 (embed.set_Dir path base)))).

(** [return nil, nil, err]. *)
Definition nil_nil (err : error) : Result :=
  {| res_config := None; res_cleanup := None; res_err := Some err |}.

(** [EvCancel] of this context. *)
Definition cancels (ctx : Context) (e : Event) : bool :=
  match e, ctx with
  | EvCancel (CtxRef i), CtxRef j => Nat.eqb i j
  | _, _ => false
  end.

(** The context's [Done] channel is closed: its [cancel] has been called. *)
Definition canceled (w : World) (ctx : Context) : bool :=
  existsb (cancels ctx) (trace w).

(** Every [cancel] called so far belongs to a context that exists. *)
Definition cancels_known (w : World) : bool :=
  forallb
    (fun e =>
       match e with
       | EvCancel (CtxRef i) => Nat.ltb i (nextRef w)
       | _ => true
       end)
    (trace w).

(** ** The fixture, over an arbitrary environment *)

Section Fixture.

(** [net.Listen("tcp4", addr)] gives no error. *)
Variable net_Listen : World -> string -> bool.
(** [l.Close()] on the listener bound to [addr] gives no error. *)
Variable Listener_Close : World -> string -> bool.
(** [embed.NewConfig()]. *)
Variable embed_NewConfig : embed.Config.
(** The error of [embed.StartEtcd(cfg)], if any. *)
Variable embed_StartEtcd : World -> embed.Config -> option error.
(** In the [select], [etcd.Server.ReadyNotify()] is taken rather than
    [time.After(readyTimeout)]. *)
Variable ReadyNotify_first : World -> embed.Etcd -> bool.
(** [%v] on a [time.Duration]. *)
Variable Duration_String : Z -> string.

Definition Listen (addr : string) : Go bool :=
  fun w => let ok := net_Listen w addr in (Return ok, log (EvListen addr ok) w).

Definition Close (addr : string) : Go bool :=
  fun w =>
    let ok := Listener_Close w addr in
    (Return ok, log (EvListenerClose addr ok) w).

(** Lines 40-47: one pass of the loop; [true] when the pass returns [port]. *)
Definition probe (port : Z) : Go bool :=
  let addr := Sprintf_addr port in
  listening <- Listen addr ;;
  if listening then Close addr else ret false.

Fixpoint getFreePort_loop (fuel : nat) (port : Z) : Go Z :=
  if port <? 65535 then
    match fuel with
    | O => fun w => (OutOfFuel, w)
    | S fuel' =>
        free <- probe port ;;
        if free then ret port
        else (port' <- atomic_AddUint32 1 ;; getFreePort_loop fuel' port')
    end
  else panic "no ports available for listening".

Definition getFreePort : Go Z :=
  port <- atomic_AddUint32 1 ;;
  getFreePort_loop (Z.to_nat (65535 - port)) port.

(** The allocation as the specification words it, with the answers of the
    system: atomically increment the cursor and take the new value as the
    candidate; open a listener on [127.0.0.1:<candidate>] and close it at
    once; when both succeed return the candidate, and otherwise start again
    from the increment.  A candidate that is not below 65535 ends it in the
    panic. *)
Inductive allocates : World -> Outcome Z -> World -> Prop :=
| allocates_free w :
    let w1 := (atomic_AddUint32 1 w).2 in
    let candidate := lastPort w1 in
    let addr := Sprintf_addr candidate in
    candidate < 65535 ->
    net_Listen w1 addr = true ->
    Listener_Close (log (EvListen addr true) w1) addr = true ->
    allocates w (Return candidate)
      (log (EvListenerClose addr true) (log (EvListen addr true) w1))
| allocates_in_use w r w' :
    let w1 := (atomic_AddUint32 1 w).2 in
    let candidate := lastPort w1 in
    let addr := Sprintf_addr candidate in
    candidate < 65535 ->
    net_Listen w1 addr = false ->
    allocates (log (EvListen addr false) w1) r w' ->
    allocates w r w'
| allocates_not_closed w r w' :
    let w1 := (atomic_AddUint32 1 w).2 in
    let candidate := lastPort w1 in
    let addr := Sprintf_addr candidate in
    candidate < 65535 ->
    net_Listen w1 addr = true ->
    Listener_Close (log (EvListen addr true) w1) addr = false ->
    allocates
      (log (EvListenerClose addr false) (log (EvListen addr true) w1)) r w' ->
    allocates w r w'
| allocates_exhausted w :
    let w1 := (atomic_AddUint32 1 w).2 in
    65535 <= lastPort w1 ->
    allocates w (Panicked "no ports available for listening") w1.

Definition StartEtcd (cfg : embed.Config) : Go (error + embed.Etcd) :=
  fun w =>
    match embed_StartEtcd w cfg with
    | Some err => (Return (inl err), log (EvStartEtcd cfg (inl err)) w)
    | None =>
        let etcd := embed.EtcdRef (nextRef w) in
        (Return (inr etcd),
         log (EvStartEtcd cfg (inr etcd))
           {| lastPort := lastPort w; nextRef := S (nextRef w);
              trace := trace w |})
    end.

(** The [select] of lines 77-83: [true] for the [ReadyNotify] case. *)
Definition select_ready (etcd : embed.Etcd) : Go bool :=
  fun w =>
    if ReadyNotify_first w etcd
    then (Return true, log (EvReadyNotify etcd) w)
    else (Return false, log (EvTimeAfter etcd readyTimeout) w).

Definition Etcd_Close (etcd : embed.Etcd) : Go unit :=
  fun w => (Return tt, log (EvEtcdClose etcd) w).

(** [context.WithCancel(context.Background())]; the [cancel] function it
    returns is [cancel ctx]. *)
Definition context_WithCancel : Go Context :=
  fun w =>
    let ctx := CtxRef (nextRef w) in
    (Return ctx,
     log (EvWithCancel ctx)
       {| lastPort := lastPort w; nextRef := S (nextRef w);
          trace := trace w |}).

Definition cancel (ctx : Context) : Go unit :=
  fun w => (Return tt, log (EvCancel ctx) w).

(** [fmt.Errorf("etcd failed to start after: %v", readyTimeout)]. *)
Definition timeout_error : error :=
  "etcd failed to start after: " +:+ Duration_String readyTimeout.

Definition NewEmbeddedEtcdInstance (path : string) : Go Result :=
  let cfg := embed_NewConfig in
  let cfg := embed.set_Dir path cfg in
  let cfg := embed.set_MaxTxnOps 8192 cfg in
  let cfg := embed.set_MaxRequestBytes (16384 * 1024) cfg in
  client_port <- getFreePort ;;
  let clientURL := Sprintf_addr client_port in
  peer_port <- getFreePort ;;
  let peerURL := Sprintf_addr peer_port in
  let cfg := embed.set_LCUrls [ {| url.Host := clientURL |} ] cfg in
  let cfg := embed.set_LPUrls [ {| url.Host := peerURL |} ] cfg in
  started <- StartEtcd cfg ;;
  match started with
  | inl err =>
      ret {| res_config := None; res_cleanup := None; res_err := Some err |}
  | inr etcd =>
      ready <- select_ready etcd ;;
      if ready then
        ctx <- context_WithCancel ;;
        let connConfig :=
          {| Ctx := ctx;
             Host := "http://" +:+ peerURL;
             User := "user";
             Pass := "pass";
             InsecureSkipVerify := true |} in
        ret {| res_config := Some connConfig;
               res_cleanup := Some (cancel ctx ;;; Etcd_Close etcd);
               res_err := None |}
      else
        (Etcd_Close etcd ;;;
         ret {| res_config := None; res_cleanup := None;
                res_err := Some timeout_error |})
  end.

(** What happens once both ports are allocated, in world [w2]: the launch
    fails, or the instance starts and the timeout fires, or the instance
    starts and reports ready. *)
Inductive launched (path : string) (p1 p2 : Z) (w2 : World) :
    Result -> World -> Prop :=
| launch_failed err w' :
    trace w' =
      trace w2 ++
      [EvStartEtcd (listen_config embed_NewConfig path p1 p2) (inl err)] ->
    nextRef w' = nextRef w2 ->
    lastPort w' = lastPort w2 ->
    launched path p1 p2 w2 (nil_nil err) w'
| launch_timed_out w' :
    let etcd := embed.EtcdRef (nextRef w2) in
    trace w' =
      trace w2 ++
      [EvStartEtcd (listen_config embed_NewConfig path p1 p2) (inr etcd);
       EvTimeAfter etcd readyTimeout;
       EvEtcdClose etcd] ->
    nextRef w' = S (nextRef w2) ->
    lastPort w' = lastPort w2 ->
    launched path p1 p2 w2 (nil_nil timeout_error) w'
| launch_ready w' :
    let etcd := embed.EtcdRef (nextRef w2) in
    let ctx := CtxRef (S (nextRef w2)) in
    trace w' =
      trace w2 ++
      [EvStartEtcd (listen_config embed_NewConfig path p1 p2) (inr etcd);
       EvReadyNotify etcd;
       EvWithCancel ctx] ->
    nextRef w' = S (S (nextRef w2)) ->
    lastPort w' = lastPort w2 ->
    launched path p1 p2 w2
      {| res_config :=
           Some {| Ctx := ctx;
                   Host := "http://" +:+ Sprintf_addr p2;
                   User := "user";
                   Pass := "pass";
                   InsecureSkipVerify := true |};
         res_cleanup := Some (cancel ctx ;;; Etcd_Close etcd);
         res_err := None |}
      w'.

(** The ways a call can go. *)
Inductive instance_run (path : string) (w : World) :
    Outcome Result -> World -> Prop :=
| run_no_client_port msg w1 :
    getFreePort w = (Panicked msg, w1) ->
    instance_run path w (Panicked msg) w1
| run_no_peer_port p1 w1 msg w2 :
    getFreePort w = (Return p1, w1) ->
    getFreePort w1 = (Panicked msg, w2) ->
    instance_run path w (Panicked msg) w2
| run_launched p1 w1 p2 w2 res w' :
    getFreePort w = (Return p1, w1) ->
    getFreePort w1 = (Return p2, w2) ->
    launched path p1 p2 w2 res w' ->
    instance_run path w (Return res) w'.

(** What the package does after a descriptor was handed out, the teardown of
    the context [keep] apart: allocations, further instances, and teardowns
    of other instances. *)
Inductive later (keep : Context) : World -> World -> Prop :=
| later_now w : later keep w w
| later_getFreePort w r w1 w2 :
    getFreePort w = (r, w1) -> later keep w1 w2 -> later keep w w2
| later_instance path w r w1 w2 :
    NewEmbeddedEtcdInstance path w = (r, w1) -> later keep w1 w2 -> later keep w w2
| later_teardown ctx etcd w r w1 w2 :
    ctx <> keep ->
    (cancel ctx ;;; Etcd_Close etcd) w = (r, w1) ->
    later keep w1 w2 -> later keep w w2.

(** The worlds a process can be in: it starts in [init_world], and then
    calls the allocator, starts instances and tears down instances whose
    context exists.  A call that panics ends the process. *)
Inductive reached : World -> Prop :=
| reached_init : reached init_world
| reached_getFreePort w p w' :
    reached w -> getFreePort w = (Return p, w') -> reached w'
| reached_instance path w res w' :
    reached w -> NewEmbeddedEtcdInstance path w = (Return res, w') ->
    reached w'
| reached_teardown i etcd w r w' :
    reached w -> (i < nextRef w)%nat ->
    (cancel (CtxRef i) ;;; Etcd_Close etcd) w = (r, w') ->
    reached w'.

(** The process went on from one world to another by calls that returned:
    allocations, instance starts and teardowns. *)
Inductive went_on : World -> World -> Prop :=
| went_on_here w : went_on w w
| went_on_getFreePort w p w1 w2 :
    getFreePort w = (Return p, w1) -> went_on w1 w2 -> went_on w w2
| went_on_instance path w res w1 w2 :
    NewEmbeddedEtcdInstance path w = (Return res, w1) ->
    went_on w1 w2 -> went_on w w2
| went_on_teardown ctx etcd w r w1 w2 :
    (cancel ctx ;;; Etcd_Close etcd) w = (r, w1) ->
    went_on w1 w2 -> went_on w w2.

End Fixture.

(** ** The allocation algorithm as the specification words it

    [next c] is the cursor after one atomic increment.  [follows c evs r c']
    says that [evs] is a run of the algorithm from cursor [c]: increment and
    take the new value as the candidate; open and at once close a listener
    on [127.0.0.1:<candidate>]; return the candidate when both succeed, and
    otherwise start again from the increment.  [r] is what the run gives and
    [c'] the cursor it leaves.  The run ends in a panic when a candidate is
    not below 65535. *)

Definition next (c : Z) : Z := (c + 1) mod uint32_modulus.

Definition no_ports : string := "no ports available for listening".

Inductive follows : Z -> list Event -> Outcome Z -> Z -> Prop :=
| follows_found c :
    next c < 65535 ->
    follows c
      [EvAddUint32 (next c);
       EvListen (Sprintf_addr (next c)) true;
       EvListenerClose (Sprintf_addr (next c)) true]
      (Return (next c)) (next c)
| follows_in_use c evs r c' :
    next c < 65535 ->
    follows (next c) evs r c' ->
    follows c
      (EvAddUint32 (next c) :: EvListen (Sprintf_addr (next c)) false :: evs)
      r c'
| follows_not_closed c evs r c' :
    next c < 65535 ->
    follows (next c) evs r c' ->
    follows c
      (EvAddUint32 (next c) :: EvListen (Sprintf_addr (next c)) true
         :: EvListenerClose (Sprintf_addr (next c)) false :: evs)
      r c'
| follows_exhausted c :
    65535 <= next c ->
    follows c [EvAddUint32 (next c)] (Panicked no_ports) (next c).

(** The events a call adds to the trace. *)
Definition events_of (w w' : World) : list Event :=
  drop (length (trace w)) (trace w').

(** The cursor has not wrapped: it is where the process started or above,
    and one more increment still fits a uint32. *)
Definition cursor_ok (w : World) : Prop :=
  defaultEtcdPort <= lastPort w /\ lastPort w + 1 < uint32_modulus.

(** The events of an allocation. *)
Definition alloc_event (e : Event) : bool :=
  match e with
  | EvAddUint32 _ | EvListen _ _ | EvListenerClose _ _ => true
  | _ => false
  end.

(** ** Goroutines calling the allocator at the same time

    Each goroutine is at one of the points of [getFreePort] where it touches
    what others can see: before an [atomic.AddUint32] (lines 36 and 48), or
    at the head of the loop with the value the add gave it (line 37).  A
    scheduler picks which goroutine moves next.  The cursor is the only
    thing they share; whether a port can be bound and released at a given
    moment is up to the operating system. *)

Inductive Pc :=
| AtAdd
| AtLoop (port : Z)
| Returned (port : Z)
| Panicking.

Record Shared := {
  cursor : Z;
  goroutines : list Pc;
  clock : nat
}.

Section Goroutines.

(** At time [t], listening on [127.0.0.1:port] and closing the listener
    both succeed. *)
Variable bind_and_close : nat -> Z -> bool.

Definition move (i : nat) (pc : Pc) (c : Z) (s : Shared) : Shared :=
  {| cursor := c;
     goroutines := <[i := pc]> (goroutines s);
     clock := S (clock s) |}.

Definition step (i : nat) (s : Shared) : Shared :=
  match goroutines s !! i with
  | Some AtAdd =>
      let port := (cursor s + 1) mod uint32_modulus in
      move i (AtLoop port) port s
  | Some (AtLoop port) =>
      if port <? 65535 then
        if bind_and_close (clock s) port
        then move i (Returned port) (cursor s) s
        else move i AtAdd (cursor s) s
      else move i Panicking (cursor s) s
  | Some (Returned _) | Some Panicking | None => s
  end.

Fixpoint run (schedule : list nat) (s : Shared) : Shared :=
  match schedule with
  | [] => s
  | i :: rest => run rest (step i s)
  end.

End Goroutines.

(** [n] goroutines, each about to call [getFreePort], with the cursor at [c]. *)
Definition start (c : Z) (n : nat) : Shared :=
  {| cursor := c; goroutines := replicate n AtAdd; clock := 0 |}.

(** The port a goroutine got from its last add and still counts on. *)
Definition held (pc : Pc) : option Z :=
  match pc with
  | AtLoop p | Returned p => Some p
  | AtAdd | Panicking => None
  end.

(** A goroutine that has seen a value of 65535 or more, and will never add
    again. *)
Definition spent (pc : Pc) : nat :=
  match pc with
  | AtLoop p => if 65535 <=? p then 1 else 0
  | Panicking => 1
  | AtAdd | Returned _ => 0
  end.

Fixpoint spent_total (l : list Pc) : nat :=
  match l with
  | [] => 0
  | pc :: l' => spent pc + spent_total l'
  end.

Definition ports_in_step (c : Z) (n : nat) (s : Shared) : Prop :=
  length (goroutines s) = n /\
  c <= cursor s /\
  cursor s <= Z.max c 65534 + Z.of_nat (spent_total (goroutines s)) /\
  (forall i pc p,
      goroutines s !! i = Some pc -> held pc = Some p -> c < p <= cursor s) /\
  (forall i j pc1 pc2 p,
      i <> j ->
      goroutines s !! i = Some pc1 -> goroutines s !! j = Some pc2 ->
      held pc1 = Some p -> held pc2 = Some p -> False).

(** What a goroutine that ran alone from cursor [c0] has come to. *)
Definition alone_follows (c0 : Z) (s : Shared) : Prop :=
  match goroutines s with
  | [Returned p] => exists evs, follows c0 evs (Return p) (cursor s)
  | [Panicking] => exists evs, follows c0 evs (Panicked no_ports) (cursor s)
  | _ => True
  end.

(** ** Readings of a trace *)


(** Every listener that was opened is closed by the very next event, and
    nothing is closed that was not just opened. *)
Fixpoint closes_what_it_opens (evs : list Event) : bool :=
  match evs with
  | [] => true
  | EvListen a true :: rest =>
      match rest with
      | EvListenerClose b _ :: rest' =>
          String.eqb a b && closes_what_it_opens rest'
      | _ => false
      end
  | EvListenerClose _ _ :: _ => false
  | _ :: rest => closes_what_it_opens rest
  end.

(** The instance was closed in these events. *)
Definition closes_instance (etcd : embed.Etcd) (e : Event) : bool :=
  match e, etcd with
  | EvEtcdClose (embed.EtcdRef i), embed.EtcdRef j => Nat.eqb i j
  | _, _ => false
  end.

(** ** Readings of the goroutines *)

(** The goroutine's call is over. *)
Definition finished (pc : Pc) : bool :=
  match pc with
  | Returned _ | Panicking => true
  | AtAdd | AtLoop _ => false
  end.

(** How many more moves a goroutine can make at most, given the cursor. *)
Definition moves_left (cur : Z) (pc : Pc) : Z :=
  match pc with
  | AtAdd => 2 * Z.max 0 (65534 - cur) + 2
  | AtLoop p => 2 * Z.max 0 (65535 - p) + 1
  | Returned _ | Panicking => 0
  end.

(** Every port a goroutine has returned is below 65535. *)
Definition returned_below (s : Shared) : Prop :=
  forall k p, goroutines s !! k = Some (Returned p) -> p < 65535.

(** How often the scheduler picks goroutine [i]. *)
Definition picks (i : nat) (schedule : list nat) : nat :=
  count_occ Nat.eq_dec schedule i.

(** ** A sample environment

    Port 2380 is taken and every other port is free; [embed.NewConfig()]
    gives etcd's defaults; durations are printed in whole seconds. *)

Definition sample_Listen (w : World) (addr : string) : bool :=
  negb (String.eqb addr "127.0.0.1:2380").

Definition sample_Close (w : World) (addr : string) : bool := true.

Definition none_free (w : World) (addr : string) : bool := false.

Definition sample_NewConfig : embed.Config :=
  {| embed.Name := "default";
     embed.Dir := EmptyString;
     embed.MaxTxnOps := 128;
     embed.MaxRequestBytes := 1572864;
     embed.LCUrls := [ {| url.Host := "localhost:2379" |} ];
     embed.LPUrls := [ {| url.Host := "localhost:2380" |} ] |}.

Definition launch_ok (w : World) (cfg : embed.Config) : option error := None.

Definition launch_fails (w : World) (cfg : embed.Config) : option error :=
  Some "listen tcp 127.0.0.1:2382: bind: address already in use".

Definition always_ready (w : World) (etcd : embed.Etcd) : bool := true.

Definition never_ready (w : World) (etcd : embed.Etcd) : bool := false.

Definition whole_seconds (d : Z) : string := format_d (d / Second) +:+ "s".

Definition sample_path : string := "/tmp/etcd".

Definition ready_run : Outcome Result * World :=
  NewEmbeddedEtcdInstance sample_Listen sample_Close sample_NewConfig
    launch_ok always_ready whole_seconds sample_path init_world.

Definition timed_out_run : Outcome Result * World :=
  NewEmbeddedEtcdInstance sample_Listen sample_Close sample_NewConfig
    launch_ok never_ready whole_seconds sample_path init_world.

Definition failed_run : Outcome Result * World :=
  NewEmbeddedEtcdInstance sample_Listen sample_Close sample_NewConfig
    launch_fails always_ready whole_seconds sample_path init_world.

Definition result_of (run : Outcome Result * World) : Result :=
  match run.1 with
  | Return res => res
  | _ => nil_nil ""
  end.

Definition teardown_of (res : Result) : Go unit :=
  match res_cleanup res with
  | Some f => f
  | None => ret tt
  end.

(** The cursor three short of the end of the range. *)
Definition nearly_exhausted : World :=
  {| lastPort := 65532; nextRef := 0; trace := [] |}.

(** For goroutines: port 2381 cannot be bound. *)
Definition sample_bind_and_close (t : nat) (port : Z) : bool :=
  negb (port =? 2381).

Definition sample_schedule : list nat :=
  [0; 1; 2; 2; 1; 0; 1; 1; 0]%nat.

(** Every port can be bound, port 0 included. *)
Definition all_free (w : World) (addr : string) : bool := true.

(** The cursor at the last value of a uint32. *)
Definition wrapped_world : World :=
  {| lastPort := 4294967295; nextRef := 0; trace := [] |}.

(** A second instance, started after [ready_run]. *)
Definition second_run : Outcome Result * World :=
  NewEmbeddedEtcdInstance sample_Listen sample_Close sample_NewConfig
    launch_ok always_ready whole_seconds "/tmp/etcd2" ready_run.2.

Definition descriptor_of (res : Result) : BackendConfig :=
  match res_config res with
  | Some bc => bc
  | None => {| Ctx := CtxRef 0; Host := ""; User := ""; Pass := "";
               InsecureSkipVerify := false |}
  end.

(** An allocation, and then an instance started after it. *)
Definition first_port_run : Outcome Z * World :=
  getFreePort sample_Listen sample_Close init_world.

Definition instance_after_port : Outcome Result * World :=
  NewEmbeddedEtcdInstance sample_Listen sample_Close sample_NewConfig
    launch_ok always_ready whole_seconds sample_path first_port_run.2.

(** Two goroutines with the cursor at 65533. *)
Definition late_schedule : list nat := [0; 1; 0; 0; 1; 0; 1; 1]%nat.

(** ** Facts about the cursor and the formatting *)

Lemma uint32_modulus_eq : uint32_modulus = 4294967296.
Proof. reflexivity. Qed.

Lemma next_range c : 0 <= next c < uint32_modulus.
Proof. unfold next. apply Z.mod_pos_bound. rewrite uint32_modulus_eq. lia. Qed.

Lemma next_small c : 0 <= c -> c + 1 < uint32_modulus -> next c = c + 1.
Proof. intros H0 H1. unfold next. apply Z.mod_small. lia. Qed.

Lemma format_d_inj p q : 0 <= p -> 0 <= q -> format_d p = format_d q -> p = q.
Proof.
  intros Hp Hq H. unfold format_d in H.
  assert (Some (N.to_uint (Z.to_N p)) = Some (N.to_uint (Z.to_N q))) as E.
  { rewrite <- !NilEmpty.usu. now rewrite H. }
  injection E as E. apply Unsigned.to_uint_inj in E. lia.
Qed.

Lemma Sprintf_addr_inj p q :
  0 <= p -> 0 <= q -> Sprintf_addr p = Sprintf_addr q -> p = q.
Proof.
  intros Hp Hq H. unfold Sprintf_addr in H.
  apply format_d_inj; [assumption | assumption |].
  exact (String.app_inj "127.0.0.1:" _ _ H).
Qed.

Lemma events_of_app w w' evs : trace w' = trace w ++ evs -> events_of w w' = evs.
Proof. intros H. unfold events_of. rewrite H. apply drop_app_length. Qed.

(** ** What a run of the algorithm implies *)

Lemma next_next c : next c < 65535 -> next (next c) = next c + 1.
Proof.
  intros H. pose proof (next_range c). apply next_small; [lia |].
  rewrite uint32_modulus_eq. lia.
Qed.

Lemma follows_cursor_range c evs r c' :
  follows c evs r c' -> 0 <= c' < uint32_modulus.
Proof. induction 1; auto using next_range. Qed.

Lemma follows_return c evs p c' :
  follows c evs (Return p) c' -> p = c' /\ 0 <= p < 65535.
Proof.
  remember (Return p) as r eqn:Er. induction 1; try discriminate; auto.
  injection Er as <-. pose proof (next_range c). lia.
Qed.

Lemma follows_panic c evs msg c' :
  follows c evs (Panicked msg) c' -> msg = no_ports /\ 65535 <= c'.
Proof.
  remember (Panicked msg) as r eqn:Er. induction 1; try discriminate; auto.
  injection Er as <-. auto.
Qed.

Lemma follows_terminates c evs c' : ~ follows c evs OutOfFuel c'.
Proof. remember OutOfFuel as r eqn:Er. induction 1; try discriminate; auto. Qed.

Lemma follows_first_candidate c evs r c' : follows c evs r c' -> next c <= c'.
Proof.
  induction 1; try lia.
  - rewrite next_next in IHfollows by assumption. lia.
  - rewrite next_next in IHfollows by assumption. lia.
Qed.

Lemma follows_advances c evs r c' :
  follows c evs r c' -> 0 <= c -> c + 1 < uint32_modulus -> c < c'.
Proof.
  intros H H0 H1. apply follows_first_candidate in H.
  rewrite next_small in H by assumption. lia.
Qed.

Lemma follows_exhaust c evs r c' :
  follows c evs r c' -> 65535 <= c' -> r = Panicked no_ports.
Proof. induction 1; intros Hc; auto; lia. Qed.

Lemma follows_alloc_events c evs r c' :
  follows c evs r c' -> forallb alloc_event evs = true.
Proof. induction 1; simpl; auto. Qed.

Lemma follows_starts_with_increment c evs r c' :
  follows c evs r c' -> exists evs', evs = EvAddUint32 (next c) :: evs'.
Proof. destruct 1; eauto. Qed.

Lemma follows_probes c evs r c' :
  follows c evs r c' ->
  forall a ok, In (EvListen a ok) evs ->
    exists q, a = Sprintf_addr q /\ next c <= q < 65535.
Proof.
  induction 1; intros a ok Hin; simpl in Hin.
  - destruct Hin as [E | [E | [E | []]]]; try discriminate.
    injection E as <- _. exists (next c). split; [reflexivity | lia].
  - destruct Hin as [E | [E | Hin]]; try discriminate.
    + injection E as <- _. exists (next c). split; [reflexivity | lia].
    + destruct (IHfollows _ _ Hin) as (q & -> & Hq).
      rewrite next_next in Hq by assumption.
      exists q. split; [reflexivity | lia].
  - destruct Hin as [E | [E | [E | Hin]]]; try discriminate.
    + injection E as <- _. exists (next c). split; [reflexivity | lia].
    + destruct (IHfollows _ _ Hin) as (q & -> & Hq).
      rewrite next_next in Hq by assumption.
      exists q. split; [reflexivity | lia].
  - destruct Hin as [E | []]. discriminate.
Qed.

Lemma follows_outcome c evs r c' :
  follows c evs r c' ->
  (exists p, r = Return p /\ p = c' /\ p < 65535 /\
     In (EvListenerClose (Sprintf_addr p) true) evs)
  \/ (r = Panicked no_ports /\ 65535 <= c' /\
      forall a, ~ In (EvListenerClose a true) evs).
Proof.
  induction 1.
  - left. exists (next c). repeat split; simpl; auto.
  - destruct IHfollows as [(p & -> & <- & Hp & Hin) | (-> & Hc & Hno)].
    + left. exists p. repeat split; simpl; auto.
    + right. repeat split; auto. intros a [E | [E | Hin]]; try discriminate.
      exact (Hno a Hin).
  - destruct IHfollows as [(p & -> & <- & Hp & Hin) | (-> & Hc & Hno)].
    + left. exists p. repeat split; simpl; auto.
    + right. repeat split; auto.
      intros a [E | [E | [E | Hin]]]; try discriminate.
      exact (Hno a Hin).
  - right. repeat split; auto. intros a [E | []]. discriminate.
Qed.

(** ** The allocator *)

Lemma bind_Return {A B} (m : Go A) (k : A -> Go B) w a w1 :
  m w = (Return a, w1) -> bind m k w = k a w1.
Proof. intros H. unfold bind. now rewrite H. Qed.

Lemma bind_Panicked {A B} (m : Go A) (k : A -> Go B) w msg w1 :
  m w = (Panicked msg, w1) -> bind m k w = (Panicked msg, w1).
Proof. intros H. unfold bind. now rewrite H. Qed.

Section AllocatorFacts.

Variable net_Listen : World -> string -> bool.
Variable Listener_Close : World -> string -> bool.

Local Abbreviation getFreePort_loop' := (getFreePort_loop net_Listen Listener_Close).
Local Abbreviation getFreePort' := (getFreePort net_Listen Listener_Close).

Lemma probe_cases port w :
  exists free w1 pevs,
    probe net_Listen Listener_Close port w = (Return free, w1) /\
    trace w1 = trace w ++ pevs /\
    lastPort w1 = lastPort w /\ nextRef w1 = nextRef w /\
    (free = true /\
       pevs = [EvListen (Sprintf_addr port) true;
               EvListenerClose (Sprintf_addr port) true]
     \/ free = false /\ pevs = [EvListen (Sprintf_addr port) false]
     \/ free = false /\
       pevs = [EvListen (Sprintf_addr port) true;
               EvListenerClose (Sprintf_addr port) false]).
Proof.
  unfold probe, bind, Listen.
  destruct (net_Listen w (Sprintf_addr port)) eqn:Hl.
  - unfold Close.
    set (w0 := log (EvListen (Sprintf_addr port) true) w).
    destruct (Listener_Close w0 (Sprintf_addr port)) eqn:Hcl;
      do 3 eexists; (split; [reflexivity |]); simpl;
      rewrite <- app_assoc; simpl; (split; [reflexivity |]); tauto.
  - unfold ret. do 3 eexists. split; [reflexivity |]. simpl. tauto.
Qed.

Lemma getFreePort_loop_follows fuel :
  forall w c,
    lastPort w = next c -> 65535 - next c <= Z.of_nat fuel ->
    exists evs,
      trace (getFreePort_loop' fuel (next c) w).2 = trace w ++ evs /\
      nextRef (getFreePort_loop' fuel (next c) w).2 = nextRef w /\
      follows c (EvAddUint32 (next c) :: evs)
        (getFreePort_loop' fuel (next c) w).1
        (lastPort (getFreePort_loop' fuel (next c) w).2).
Proof.
  induction fuel as [| fuel IH]; intros w c Hw Hfuel.
  - simpl. destruct (Z.ltb_spec (next c) 65535) as [Hlt | Hge]; [lia |].
    exists []. simpl. rewrite app_nil_r, Hw.
    repeat split. now apply follows_exhausted.
  - simpl. destruct (Z.ltb_spec (next c) 65535) as [Hlt | Hge].
    2:{ exists []. simpl. rewrite app_nil_r, Hw.
        repeat split. now apply follows_exhausted. }
    pose proof (next_next c Hlt) as Hnn.
    destruct (probe_cases (next c) w)
      as (free & w1 & pevs & Hp & Ht1 & Hl1 & Hn1 & Hcases).
    rewrite (bind_Return _ _ _ _ _ Hp).
    destruct Hcases as [(-> & ->) | Hretry].
    { eexists. unfold ret. simpl. split; [exact Ht1 |]. split; [exact Hn1 |].
      rewrite Hl1, Hw. now apply follows_found. }
    assert (free = false) as ->
        by (destruct Hretry as [[? _] | [? _]]; assumption).
    unfold bind, atomic_AddUint32. simpl. rewrite Hl1, Hw.
    fold (next (next c)).
    match goal with
    | |- context [getFreePort_loop' fuel _ ?w2] =>
        destruct (IH w2 (next c)) as (evs & Ht & Hn & Hf);
          [reflexivity | lia |];
        set (run := getFreePort_loop' fuel (next (next c)) w2) in *
    end.
    simpl in Ht, Hn. rewrite Ht1, <- app_assoc in Ht.
    exists (pevs ++ EvAddUint32 (next (next c)) :: evs).
    split; [rewrite Ht, <- app_assoc; reflexivity |].
    split; [congruence |].
    destruct Hretry as [(_ & ->) | (_ & ->)]; simpl.
    + now apply follows_in_use.
    + now apply follows_not_closed.
Qed.

Lemma getFreePort_follows w :
  exists evs,
    trace (getFreePort' w).2 = trace w ++ evs /\
    nextRef (getFreePort' w).2 = nextRef w /\
    follows (lastPort w) evs (getFreePort' w).1 (lastPort (getFreePort' w).2).
Proof.
  unfold getFreePort, bind, atomic_AddUint32. simpl. fold (next (lastPort w)).
  match goal with
  | |- context [getFreePort_loop' ?f _ ?w1] =>
      destruct (getFreePort_loop_follows f w1 (lastPort w))
        as (evs & Ht & Hn & Hf); [reflexivity | |]
  end.
  { pose proof (next_range (lastPort w)). lia. }
  exists (EvAddUint32 (next (lastPort w)) :: evs).
  split; [rewrite Ht; simpl; rewrite <- app_assoc; reflexivity |].
  split; [rewrite Hn; reflexivity | exact Hf].
Qed.

Lemma getFreePort_run w r w' :
  getFreePort' w = (r, w') ->
  exists evs,
    trace w' = trace w ++ evs /\ nextRef w' = nextRef w /\
    follows (lastPort w) evs r (lastPort w').
Proof.
  intros H. destruct (getFreePort_follows w) as (evs & Ht & Hn & Hf).
  rewrite H in Ht, Hn, Hf. eauto.
Qed.

(** The fuel [getFreePort] gives its loop is enough: a call returns or
    panics. *)
Lemma getFreePort_terminates w : (getFreePort' w).1 <> OutOfFuel.
Proof.
  destruct (getFreePort_follows w) as (evs & _ & _ & Hf). intros E.
  rewrite E in Hf. exact (follows_terminates _ _ _ Hf).
Qed.

Local Abbreviation allocates' := (allocates net_Listen Listener_Close).

(** One round of the loop, by the answers of the system. *)
Lemma getFreePort_loop_round k port w :
  port < 65535 ->
  getFreePort_loop' (S k) port w =
  let addr := Sprintf_addr port in
  if net_Listen w addr then
    let wl := log (EvListen addr true) w in
    if Listener_Close wl addr then
      (Return port, log (EvListenerClose addr true) wl)
    else
      let wn := (atomic_AddUint32 1 (log (EvListenerClose addr false) wl)).2 in
      getFreePort_loop' k (lastPort wn) wn
  else
    let wn := (atomic_AddUint32 1 (log (EvListen addr false) w)).2 in
    getFreePort_loop' k (lastPort wn) wn.
Proof.
  intros H. cbn [getFreePort_loop].
  destruct (Z.ltb_spec port 65535) as [_ | Hge]; [| lia].
  unfold probe. unfold bind, Listen, Close, ret. cbv beta zeta.
  destruct (net_Listen w (Sprintf_addr port)); cbv beta iota.
  - destruct (Listener_Close (log (EvListen (Sprintf_addr port) true) w)
                (Sprintf_addr port)); reflexivity.
  - reflexivity.
Qed.

Lemma getFreePort_loop_exhausted k port w :
  65535 <= port ->
  getFreePort_loop' k port w = (Panicked "no ports available for listening", w).
Proof.
  intros H. destruct k; cbn [getFreePort_loop];
    destruct (Z.ltb_spec port 65535); try lia; reflexivity.
Qed.

Lemma getFreePort_unfold w :
  getFreePort' w =
  getFreePort_loop'
    (Z.to_nat (65535 - lastPort (atomic_AddUint32 1 w).2))
    (lastPort (atomic_AddUint32 1 w).2) (atomic_AddUint32 1 w).2.
Proof. reflexivity. Qed.

Lemma incremented_cursor w :
  lastPort (atomic_AddUint32 1 w).2 = next (lastPort w).
Proof. reflexivity. Qed.

Lemma logged_cursor e w : lastPort (log e w) = lastPort w.
Proof. reflexivity. Qed.

Lemma getFreePort_loop_allocates fuel :
  forall w,
    65535 - lastPort (atomic_AddUint32 1 w).2 <= Z.of_nat fuel ->
    allocates' w
      (getFreePort_loop' fuel (lastPort (atomic_AddUint32 1 w).2)
         (atomic_AddUint32 1 w).2).1
      (getFreePort_loop' fuel (lastPort (atomic_AddUint32 1 w).2)
         (atomic_AddUint32 1 w).2).2.
Proof.
  induction fuel as [| fuel IH]; intros w Hfuel;
    pose proof (next_range (lastPort w)) as Hr;
    rewrite <- incremented_cursor in Hr;
    set (w1 := (atomic_AddUint32 1 w).2) in *;
    destruct (Z.lt_ge_cases (lastPort w1) 65535) as [Hlt | Hge];
    try (rewrite getFreePort_loop_exhausted by exact Hge;
         now apply allocates_exhausted).
  - lia.
  - rewrite getFreePort_loop_round by exact Hlt. cbv zeta.
    assert (Hnext : forall e1,
               65535 - lastPort
                 (atomic_AddUint32 1 e1).2 <= Z.of_nat fuel \/
               lastPort e1 <> lastPort w1).
    { intros e1. destruct (Z.eq_dec (lastPort e1) (lastPort w1)) as [E | Hne];
        [left | right; exact Hne].
      rewrite incremented_cursor, E, next_small;
        [lia | lia | rewrite uint32_modulus_eq; lia]. }
    destruct (net_Listen w1 (Sprintf_addr (lastPort w1))) eqn:Hl.
    + destruct (Listener_Close
                  (log (EvListen (Sprintf_addr (lastPort w1)) true) w1)
                  (Sprintf_addr (lastPort w1))) eqn:Hc.
      * now apply allocates_free.
      * apply allocates_not_closed; try assumption.
        apply IH. destruct (Hnext (log (EvListenerClose
                     (Sprintf_addr (lastPort w1)) false)
                     (log (EvListen (Sprintf_addr (lastPort w1)) true) w1)))
          as [H | H]; [exact H | destruct H; reflexivity].
      + apply allocates_in_use; try assumption.
        apply IH. destruct (Hnext (log (EvListen
                     (Sprintf_addr (lastPort w1)) false) w1))
          as [H | H]; [exact H | destruct H; reflexivity].
Qed.

Lemma getFreePort_allocates w :
  allocates' w (getFreePort' w).1 (getFreePort' w).2.
Proof.
  rewrite getFreePort_unfold. apply getFreePort_loop_allocates.
  pose proof (next_range (lastPort w)) as Hr.
  rewrite <- incremented_cursor in Hr. lia.
Qed.

Lemma allocates_is_getFreePort w r w' :
  allocates' w r w' -> getFreePort' w = (r, w').
Proof.
  induction 1 as [w w1 c addr Hlt Hl Hc
                 | w r w' w1 c addr Hlt Hl _ IH
                 | w r w' w1 c addr Hlt Hl Hc _ IH
                 | w w1 Hge];
    rewrite getFreePort_unfold; fold w1;
    pose proof (next_range (lastPort w)) as Hr;
    rewrite <- incremented_cursor in Hr; fold w1 in Hr.
  - fold c in Hr |- *.
    replace (Z.to_nat (65535 - c)) with (S (Z.to_nat (65534 - c))) by lia.
    rewrite getFreePort_loop_round by exact Hlt. cbv zeta.
    fold addr. now rewrite Hl, Hc.
  - fold c in Hr |- *.
    replace (Z.to_nat (65535 - c)) with (S (Z.to_nat (65534 - c))) by lia.
    rewrite getFreePort_loop_round by exact Hlt. cbv zeta.
    fold addr. rewrite Hl. rewrite getFreePort_unfold in IH.
    rewrite <- IH. f_equal.
    rewrite incremented_cursor, logged_cursor. fold c.
    rewrite next_small; [lia | lia | rewrite uint32_modulus_eq; lia].
  - fold c in Hr |- *.
    replace (Z.to_nat (65535 - c)) with (S (Z.to_nat (65534 - c))) by lia.
    rewrite getFreePort_loop_round by exact Hlt. cbv zeta.
    fold addr. rewrite Hl, Hc. rewrite getFreePort_unfold in IH.
    rewrite <- IH. f_equal.
    rewrite incremented_cursor, !logged_cursor. fold c.
    rewrite next_small; [lia | lia | rewrite uint32_modulus_eq; lia].
  - now apply getFreePort_loop_exhausted.
Qed.

(** C6: every call runs the algorithm of the specification, on the answers
    the system gives.  An atomic increment gives the candidate; a listener
    on 127.0.0.1:<candidate> is opened and at once closed; when the listen
    and the close both succeed the candidate is returned, and when either
    fails the cursor is incremented again for the next candidate
    ([allocates], which holds of what the call gives and of nothing else).
    The events the call adds to the trace are such a run ([follows]).  The
    cursor the call leaves is the last value an increment gave, and as long
    as a uint32 has room for one more increment it is above the one the
    call found. *)
Theorem getFreePort_algorithm w :
  exists evs,
    trace (getFreePort' w).2 = trace w ++ evs /\
    follows (lastPort w) evs (getFreePort' w).1 (lastPort (getFreePort' w).2) /\
    (0 <= lastPort w -> lastPort w + 1 < uint32_modulus ->
     lastPort w < lastPort (getFreePort' w).2) /\
    allocates net_Listen Listener_Close w (getFreePort' w).1 (getFreePort' w).2 /\
    (forall r w',
        allocates net_Listen Listener_Close w r w' ->
        getFreePort' w = (r, w')).
Proof.
  destruct (getFreePort_follows w) as (evs & Ht & _ & Hf).
  exists evs. split; [exact Ht |]. split; [exact Hf |].
  split.
  - intros H0 H1. exact (follows_advances _ _ _ _ Hf H0 H1).
  - split; [apply getFreePort_allocates | apply allocates_is_getFreePort].
Qed.

(** C3: a call whose candidate reaches 65535 or goes beyond it, no probe
    having succeeded, panics with "no ports available for listening" and
    returns no port; so does every call in which no listener was opened and
    closed without error.  A port that is returned is a valid port number. *)
Theorem getFreePort_exhaustion w :
  0 <= lastPort w -> lastPort w + 1 < uint32_modulus ->
  (65535 <= lastPort (getFreePort' w).2 ->
   (getFreePort' w).1 = Panicked no_ports) /\
  ((forall a, ~ In (EvListenerClose a true) (events_of w (getFreePort' w).2)) ->
   (getFreePort' w).1 = Panicked no_ports /\
   65535 <= lastPort (getFreePort' w).2) /\
  (forall p, (getFreePort' w).1 = Return p -> 1 <= p <= 65535).
Proof.
  intros H0 H1.
  destruct (getFreePort_follows w) as (evs & Ht & _ & Hf).
  rewrite (events_of_app _ _ _ Ht).
  split; [| split].
  - intros Hc. exact (follows_exhaust _ _ _ _ Hf Hc).
  - intros Hno.
    destruct (follows_outcome _ _ _ _ Hf) as [(p & _ & _ & _ & Hin) | (E & Hc & _)].
    + destruct (Hno _ Hin).
    + auto.
  - intros p Hp. rewrite Hp in Hf.
    pose proof (follows_advances _ _ _ _ Hf H0 H1).
    destruct (follows_return _ _ _ _ Hf) as [-> Hr]. lia.
Qed.

(** C9: from a cursor that has not wrapped, a returned port is at least 2380
    and at most 65534, and so is every port the call probed. *)
Theorem getFreePort_port_range w p w' :
  cursor_ok w ->
  getFreePort' w = (Return p, w') ->
  2380 <= p <= 65534 /\
  forall a ok, In (EvListen a ok) (events_of w w') ->
    exists q, a = Sprintf_addr q /\ 2380 <= q <= 65534.
Proof.
  intros [Hlo Hhi] H. unfold defaultEtcdPort in Hlo.
  destruct (getFreePort_run _ _ _ H) as (evs & Ht & _ & Hf).
  rewrite (events_of_app _ _ _ Ht).
  assert (Hn : next (lastPort w) = lastPort w + 1) by (apply next_small; lia).
  split.
  - pose proof (follows_first_candidate _ _ _ _ Hf).
    destruct (follows_return _ _ _ _ Hf) as [-> Hr]. lia.
  - intros a ok Hin.
    destruct (follows_probes _ _ _ _ Hf _ _ Hin) as (q & -> & Hq).
    exists q. split; [reflexivity | lia].
Qed.


End AllocatorFacts.

(** ** Starting an instance *)

Section InstanceFacts.

Variable net_Listen : World -> string -> bool.
Variable Listener_Close : World -> string -> bool.
Variable embed_NewConfig : embed.Config.
Variable embed_StartEtcd : World -> embed.Config -> option error.
Variable ReadyNotify_first : World -> embed.Etcd -> bool.
Variable Duration_String : Z -> string.

Local Abbreviation getFreePort' := (getFreePort net_Listen Listener_Close).
Local Abbreviation New' :=
  (NewEmbeddedEtcdInstance net_Listen Listener_Close embed_NewConfig
     embed_StartEtcd ReadyNotify_first Duration_String).
Local Abbreviation timeout_error' := (timeout_error Duration_String).
Local Abbreviation launched' := (launched embed_NewConfig Duration_String).
Local Abbreviation instance_run' :=
  (instance_run net_Listen Listener_Close embed_NewConfig Duration_String).
Local Abbreviation later' :=
  (later net_Listen Listener_Close embed_NewConfig embed_StartEtcd
     ReadyNotify_first Duration_String).
Local Abbreviation reached' :=
  (reached net_Listen Listener_Close embed_NewConfig embed_StartEtcd
     ReadyNotify_first Duration_String).

Lemma NewEmbeddedEtcdInstance_run path w :
  instance_run' path w (New' path w).1 (New' path w).2.
Proof.
  destruct (New' path w) as [r w'] eqn:H. simpl. revert H.
  unfold NewEmbeddedEtcdInstance.
  destruct (getFreePort' w) as [[p1 | msg |] w1] eqn:H1.
  2:{ rewrite (bind_Panicked _ _ _ _ _ H1). intros [= <- <-].
      now apply run_no_client_port. }
  2:{ destruct (getFreePort_run _ _ _ _ _ H1) as (evs & _ & _ & Hf).
      destruct (follows_terminates _ _ _ Hf). }
  rewrite (bind_Return _ _ _ _ _ H1).
  destruct (getFreePort' w1) as [[p2 | msg |] w2] eqn:H2.
  2:{ rewrite (bind_Panicked _ _ _ _ _ H2). intros [= <- <-].
      eapply run_no_peer_port; eauto. }
  2:{ destruct (getFreePort_run _ _ _ _ _ H2) as (evs & _ & _ & Hf).
      destruct (follows_terminates _ _ _ Hf). }
  rewrite (bind_Return _ _ _ _ _ H2).
  fold (listen_config embed_NewConfig path p1 p2).
  set (cfg := listen_config embed_NewConfig path p1 p2).
  destruct (StartEtcd embed_StartEtcd cfg w2) as [started w3] eqn:Hst.
  unfold StartEtcd in Hst.
  destruct (embed_StartEtcd w2 cfg) as [err |] eqn:Hs;
    injection Hst as <- <-; unfold bind at 1; unfold StartEtcd; rewrite Hs.
  { unfold ret. intros [= <- <-]. eapply run_launched; eauto.
    apply launch_failed; reflexivity. }
  unfold bind at 1. unfold select_ready.
  match goal with
  | |- context [ReadyNotify_first ?w3 ?e] =>
      destruct (ReadyNotify_first w3 e) eqn:Hr
  end.
  - unfold bind, context_WithCancel, ret. simpl. intros [= <- <-].
    eapply run_launched; eauto.
    apply launch_ready; simpl; try reflexivity.
    rewrite <- !app_assoc. reflexivity.
  - unfold bind, Etcd_Close, ret. simpl. intros [= <- <-].
    eapply run_launched; eauto.
    apply launch_timed_out; simpl; try reflexivity.
    rewrite <- !app_assoc. reflexivity.
Qed.

Lemma alloc_event_in evs e :
  forallb alloc_event evs = true -> In e evs -> alloc_event e = true.
Proof. intros H Hin. rewrite forallb_forall in H. auto. Qed.

Lemma launched_events path p1 p2 w2 res w' :
  launched' path p1 p2 w2 res w' ->
  exists tail,
    trace w' = trace w2 ++ tail /\
    forallb (fun e => negb (alloc_event e)) tail = true /\
    forall ctx, existsb (cancels ctx) tail = false.
Proof.
  destruct 1 as [err w' Ht _ _ | w' etcd Ht _ _ | w' etcd ctx Ht _ _];
    eexists; (split; [exact Ht |]); split; try reflexivity;
    intros [j]; reflexivity.
Qed.

(** A call that returns made two allocations, one after the other, and then
    launched. *)
Lemma NewEmbeddedEtcdInstance_returns path w res w' :
  New' path w = (Return res, w') ->
  exists p1 w1 p2 w2 evs1 evs2,
    getFreePort' w = (Return p1, w1) /\
    getFreePort' w1 = (Return p2, w2) /\
    follows (lastPort w) evs1 (Return p1) p1 /\
    follows p1 evs2 (Return p2) p2 /\
    trace w2 = trace w ++ evs1 ++ evs2 /\
    nextRef w2 = nextRef w /\
    launched' path p1 p2 w2 res w'.
Proof.
  intros H. pose proof (NewEmbeddedEtcdInstance_run path w) as Hrun.
  rewrite H in Hrun. simpl in Hrun.
  inversion Hrun as [| | p1 w1 p2 w2 res0 w0 H1 H2 Hl]; subst.
  destruct (getFreePort_run _ _ _ _ _ H1) as (evs1 & Ht1 & Hn1 & Hf1).
  destruct (getFreePort_run _ _ _ _ _ H2) as (evs2 & Ht2 & Hn2 & Hf2).
  destruct (follows_return _ _ _ _ Hf1) as [E1 _].
  destruct (follows_return _ _ _ _ Hf2) as [E2 _].
  rewrite <- E1 in Hf1, Hf2. rewrite <- E2 in Hf2.
  exists p1, w1, p2, w2, evs1, evs2.
  repeat split; auto.
  - rewrite Ht2, Ht1, <- app_assoc. reflexivity.
  - congruence.
Qed.

(** A call that panics did nothing but allocate. *)
Lemma NewEmbeddedEtcdInstance_panics path w msg w' :
  New' path w = (Panicked msg, w') ->
  exists evs, trace w' = trace w ++ evs /\ forallb alloc_event evs = true /\
              nextRef w' = nextRef w.
Proof.
  intros H. pose proof (NewEmbeddedEtcdInstance_run path w) as Hrun.
  rewrite H in Hrun. simpl in Hrun.
  inversion Hrun as [msg0 w1 H1 | p1 w1 msg0 w2 H1 H2 |]; subst.
  - destruct (getFreePort_run _ _ _ _ _ H1) as (evs1 & Ht1 & Hn1 & Hf1).
    exists evs1. eauto using follows_alloc_events.
  - destruct (getFreePort_run _ _ _ _ _ H1) as (evs1 & Ht1 & Hn1 & Hf1).
    destruct (getFreePort_run _ _ _ _ _ H2) as (evs2 & Ht2 & Hn2 & Hf2).
    exists (evs1 ++ evs2). split; [| split].
    + rewrite Ht2, Ht1, <- app_assoc. reflexivity.
    + rewrite forallb_app.
      rewrite (follows_alloc_events _ _ _ _ Hf1).
      rewrite (follows_alloc_events _ _ _ _ Hf2). reflexivity.
    + congruence.
Qed.

Lemma NewEmbeddedEtcdInstance_terminates path w w' :
  New' path w <> (OutOfFuel, w').
Proof.
  intros H. pose proof (NewEmbeddedEtcdInstance_run path w) as Hrun.
  rewrite H in Hrun. inversion Hrun.
Qed.

Lemma no_StartEtcd_in_alloc evs cfg sres :
  forallb alloc_event evs = true -> ~ In (EvStartEtcd cfg sres) evs.
Proof. intros H Hin. now apply (alloc_event_in _ _ H) in Hin. Qed.

Lemma two_ports_differ c evs1 p1 evs2 p2 :
  follows c evs1 (Return p1) p1 -> follows p1 evs2 (Return p2) p2 ->
  0 <= p1 < p2 /\ Sprintf_addr p1 <> Sprintf_addr p2.
Proof.
  intros Hf1 Hf2.
  destruct (follows_return _ _ _ _ Hf1) as [_ Hr1].
  assert (p1 < p2).
  { apply (follows_advances _ _ _ _ Hf2); [lia |].
    rewrite uint32_modulus_eq. lia. }
  split; [lia |]. intros E. apply Sprintf_addr_inj in E; lia.
Qed.

(** C1: a call that returns without error returns a descriptor whose host is
    "http://" followed by the peer listen address of the configuration the
    instance was started with, which is not the client listen address; the
    user is "user", the password "pass", and InsecureSkipVerify is set. *)
Theorem descriptor_fields path w res w' :
  New' path w = (Return res, w') ->
  res_err res = None ->
  exists bc cfg etcd client peer,
    res_config res = Some bc /\
    In (EvStartEtcd cfg (inr etcd)) (events_of w w') /\
    (forall cfg' sres, In (EvStartEtcd cfg' sres) (events_of w w') -> cfg' = cfg) /\
    embed.LCUrls cfg = [ {| url.Host := client |} ] /\
    embed.LPUrls cfg = [ {| url.Host := peer |} ] /\
    client <> peer /\
    Host bc = "http://" +:+ peer /\
    Host bc <> "http://" +:+ client /\
    User bc = "user" /\
    Pass bc = "pass" /\
    InsecureSkipVerify bc = true.
Proof.
  intros H Herr.
  destruct (NewEmbeddedEtcdInstance_returns _ _ _ _ H)
    as (p1 & w1 & p2 & w2 & evs1 & evs2 & H1 & H2 & Hf1 & Hf2 & Ht2 & Hn2 & Hl).
  destruct Hl as [err w' Ht _ _ | w' etcd Ht _ _ | w' etcd ctx Ht _ _];
    try discriminate Herr.
  rewrite Ht2, <- !app_assoc in Ht. rewrite (events_of_app _ _ _ Ht).
  destruct (two_ports_differ _ _ _ _ _ Hf1 Hf2) as [_ Hne].
  eexists _, (listen_config embed_NewConfig path p1 p2), etcd, _, _.
  split; [reflexivity |]. split; [| split].
  - rewrite !in_app_iff. right. right. simpl. auto.
  - intros cfg' sres. rewrite !in_app_iff. intros [Hin | [Hin | Hin]].
    + destruct (no_StartEtcd_in_alloc _ _ _ (follows_alloc_events _ _ _ _ Hf1) Hin).
    + destruct (no_StartEtcd_in_alloc _ _ _ (follows_alloc_events _ _ _ _ Hf2) Hin).
    + simpl in Hin. destruct Hin as [E | [E | [E | []]]]; try discriminate.
      now injection E.
  - simpl. repeat split; try reflexivity; [exact Hne |].
    intros E. apply (String.app_inj "http://") in E. congruence.
Qed.

(** C4: a call that returns has called the allocator twice, the second call
    starting where the first one left the world; the client listen address
    is made from the first port and the peer listen address from the second,
    and the two ports are different. *)
Theorem client_and_peer_ports_differ path w res w' :
  New' path w = (Return res, w') ->
  exists p1 w1 p2 w2 evs1 evs2 cfg sres tail,
    getFreePort' w = (Return p1, w1) /\
    getFreePort' w1 = (Return p2, w2) /\
    follows (lastPort w) evs1 (Return p1) p1 /\
    follows p1 evs2 (Return p2) p2 /\
    events_of w w' = evs1 ++ evs2 ++ EvStartEtcd cfg sres :: tail /\
    embed.LCUrls cfg = [ {| url.Host := Sprintf_addr p1 |} ] /\
    embed.LPUrls cfg = [ {| url.Host := Sprintf_addr p2 |} ] /\
    p1 <> p2 /\
    Sprintf_addr p1 <> Sprintf_addr p2.
Proof.
  intros H.
  destruct (NewEmbeddedEtcdInstance_returns _ _ _ _ H)
    as (p1 & w1 & p2 & w2 & evs1 & evs2 & H1 & H2 & Hf1 & Hf2 & Ht2 & Hn2 & Hl).
  destruct (two_ports_differ _ _ _ _ _ Hf1 Hf2) as [Hlt Hne].
  exists p1, w1, p2, w2, evs1, evs2, (listen_config embed_NewConfig path p1 p2).
  destruct Hl as [err w' Ht _ _ | w' etcd Ht _ _ | w' etcd ctx Ht _ _];
    rewrite Ht2, <- !app_assoc in Ht; rewrite (events_of_app _ _ _ Ht);
    eexists _, _; repeat split; eauto; lia.
Qed.


(** The events of a call, whichever way it went: allocations, and after them
    what the launch added. *)
Lemma NewEmbeddedEtcdInstance_events path w :
  (exists evs,
      events_of w (New' path w).2 = evs /\ forallb alloc_event evs = true /\
      nextRef (New' path w).2 = nextRef w /\
      exists msg, (New' path w).1 = Panicked msg)
  \/ exists p1 p2 w2 evs res,
      (New' path w).1 = Return res /\
      forallb alloc_event evs = true /\
      trace w2 = trace w ++ evs /\
      nextRef w2 = nextRef w /\
      launched' path p1 p2 w2 res (New' path w).2.
Proof.
  destruct (New' path w) as [[res | msg |] w'] eqn:H; simpl.
  - right.
    destruct (NewEmbeddedEtcdInstance_returns _ _ _ _ H)
      as (p1 & w1 & p2 & w2 & evs1 & evs2 & H1 & H2 & Hf1 & Hf2 & Ht2 & Hn2 & Hl).
    exists p1, p2, w2, (evs1 ++ evs2), res.
    rewrite forallb_app, (follows_alloc_events _ _ _ _ Hf1),
      (follows_alloc_events _ _ _ _ Hf2). auto.
  - left. destruct (NewEmbeddedEtcdInstance_panics _ _ _ _ H) as (evs & Ht & Ha & Hn).
    exists evs. rewrite (events_of_app _ _ _ Ht). eauto.
  - destruct (NewEmbeddedEtcdInstance_terminates _ _ _ H).
Qed.

(** C5: when [embed.StartEtcd] gives an error, the call returns that very
    error with a nil descriptor and a nil teardown; the failed launch is the
    last thing the call did, no instance was started, no context was made
    and no new reference exists. *)
Theorem launch_failure path w r w' cfg err :
  New' path w = (r, w') ->
  In (EvStartEtcd cfg (inl err)) (events_of w w') ->
  (exists res, r = Return res /\ res_config res = None /\
               res_cleanup res = None /\ res_err res = Some err) /\
  (exists pre, events_of w w' = pre ++ [EvStartEtcd cfg (inl err)]) /\
  nextRef w' = nextRef w /\
  (forall c, ~ In (EvWithCancel c) (events_of w w')) /\
  (forall cfg' etcd, ~ In (EvStartEtcd cfg' (inr etcd)) (events_of w w')).
Proof.
  intros H Hin.
  destruct (NewEmbeddedEtcdInstance_events path w) as
    [(evs & Hev & Ha & _) | (p1 & p2 & w2 & evs & res & Hr & Ha & Ht2 & Hn2 & Hl)];
    rewrite H in *; simpl in *.
  { rewrite Hev in Hin. destruct (no_StartEtcd_in_alloc _ _ _ Ha Hin). }
  subst r.
  assert (Hnot : forall e, alloc_event e = false -> In e evs -> False).
  { intros e He Hi. apply (alloc_event_in _ _ Ha) in Hi. congruence. }
  destruct Hl as [err' w' Ht Hn _ | w' etcd Ht _ _ | w' etcd ctx Ht _ _];
    rewrite Ht2, <- !app_assoc in Ht; rewrite (events_of_app _ _ _ Ht) in *;
    apply in_app_iff in Hin; destruct Hin as [Hin | Hin];
    try (exfalso; eapply Hnot; [| exact Hin]; reflexivity);
    simpl in Hin; try (intuition discriminate).
  destruct Hin as [E | []]. injection E as <- <-.
  split; [eexists; repeat split; reflexivity |].
  split; [eexists; reflexivity |].
  split; [congruence |].
  split.
  - intros c Hc. apply in_app_iff in Hc. destruct Hc as [Hc | Hc].
    + eapply Hnot; [| exact Hc]; reflexivity.
    + simpl in Hc. intuition discriminate.
  - intros cfg' etcd Hc. apply in_app_iff in Hc. destruct Hc as [Hc | Hc].
    + eapply Hnot; [| exact Hc]; reflexivity.
    + simpl in Hc. intuition discriminate.
Qed.

(** C2: when the instance has started and the call did not see it ready, the
    timeout of [readyTimeout] fired and the instance was closed as the last
    thing before the return; the call returns a nil descriptor, a nil
    teardown and the error "etcd failed to start after: " followed by
    [readyTimeout] as a duration is printed. *)
Theorem readiness_timeout path w r w' cfg etcd :
  New' path w = (r, w') ->
  In (EvStartEtcd cfg (inr etcd)) (events_of w w') ->
  ~ In (EvReadyNotify etcd) (events_of w w') ->
  (exists res, r = Return res /\ res_config res = None /\
               res_cleanup res = None /\
               res_err res =
                 Some ("etcd failed to start after: " +:+
                       Duration_String readyTimeout)) /\
  (exists pre,
      events_of w w' =
      pre ++ [EvStartEtcd cfg (inr etcd);
              EvTimeAfter etcd readyTimeout;
              EvEtcdClose etcd]).
Proof.
  intros H Hin Hnr.
  destruct (NewEmbeddedEtcdInstance_events path w) as
    [(evs & Hev & Ha & _) | (p1 & p2 & w2 & evs & res & Hr & Ha & Ht2 & Hn2 & Hl)];
    rewrite H in *; simpl in *.
  { rewrite Hev in Hin. destruct (no_StartEtcd_in_alloc _ _ _ Ha Hin). }
  subst r.
  assert (Hnot : forall e, alloc_event e = false -> In e evs -> False).
  { intros e He Hi. apply (alloc_event_in _ _ Ha) in Hi. congruence. }
  destruct Hl as [err' w' Ht Hn _ | w' etcd0 Ht _ _ | w' etcd0 ctx Ht _ _];
    rewrite Ht2, <- !app_assoc in Ht; rewrite (events_of_app _ _ _ Ht) in *;
    apply in_app_iff in Hin; destruct Hin as [Hin | Hin];
    try (exfalso; eapply Hnot; [| exact Hin]; reflexivity);
    simpl in Hin; destruct Hin as [E | Hin]; try (intuition discriminate).
  - injection E as <- <-.
    split; [eexists; repeat split; reflexivity |].
    eexists; reflexivity.
  - injection E as <- <-. destruct Hnr.
    apply in_app_iff. right. simpl. auto.
Qed.

Lemma canceled_after w w' evs ctx :
  trace w' = trace w ++ evs ->
  canceled w' ctx = canceled w ctx || existsb (cancels ctx) evs.
Proof. intros H. unfold canceled. rewrite H. apply existsb_app. Qed.

Lemma canceled_log w e ctx :
  canceled (log e w) ctx = canceled w ctx || cancels ctx e.
Proof.
  unfold canceled, log. cbn [trace]. rewrite existsb_app.
  cbn [existsb]. now rewrite orb_false_r.
Qed.

Lemma alloc_events_cancel_nothing evs ctx :
  forallb alloc_event evs = true -> existsb (cancels ctx) evs = false.
Proof.
  induction evs as [| e evs IH]; simpl; [reflexivity |].
  intros H. apply andb_prop in H as [He Hr]. rewrite (IH Hr).
  destruct e; try discriminate He; reflexivity.
Qed.

Lemma fresh_context_live w j :
  cancels_known w = true -> (nextRef w <= j)%nat ->
  canceled w (CtxRef j) = false.
Proof.
  unfold cancels_known, canceled. generalize (nextRef w) as n.
  induction (trace w) as [| e l IH]; simpl; intros n H Hj; [reflexivity |].
  apply andb_prop in H as [He Hr]. rewrite (IH _ Hr Hj).
  destruct e as [| | | | | | | | [i]]; try reflexivity. simpl.
  apply Nat.ltb_lt in He. rewrite orb_false_r. apply Nat.eqb_neq. lia.
Qed.

Lemma teardown_run ctx etcd w :
  (cancel ctx ;;; Etcd_Close etcd) w =
  (Return tt, log (EvEtcdClose etcd) (log (EvCancel ctx) w)).
Proof. reflexivity. Qed.

Lemma cancels_self ctx : cancels ctx (EvCancel ctx) = true.
Proof. destruct ctx as [i]. simpl. apply Nat.eqb_refl. Qed.

Lemma cancels_other ctx keep : ctx <> keep -> cancels keep (EvCancel ctx) = false.
Proof.
  destruct ctx as [i], keep as [j]. simpl. intros H.
  apply Nat.eqb_neq. congruence.
Qed.

Lemma later_keeps_live keep w w2 :
  later' keep w w2 -> canceled w keep = false -> canceled w2 keep = false.
Proof.
  induction 1 as [w | w r w1 w2 Hg _ IH | path w r w1 w2 Hn _ IH
                  | ctx etcd w r w1 w2 Hne Ht _ IH]; intros Hlive.
  - exact Hlive.
  - apply IH. destruct (getFreePort_run _ _ _ _ _ Hg) as (evs & Htr & _ & Hf).
    rewrite (canceled_after _ _ _ _ Htr), Hlive.
    now rewrite (alloc_events_cancel_nothing _ _ (follows_alloc_events _ _ _ _ Hf)).
  - apply IH.
    destruct (NewEmbeddedEtcdInstance_events path w) as
      [(evs & Hev & Ha & _) | (p1 & p2 & w3 & evs & res & Hr & Ha & Ht3 & Hn3 & Hl)];
      rewrite Hn in *; simpl in *.
    + unfold events_of in Hev.
      assert (Htr : trace w1 = trace w ++ evs).
      { rewrite <- Hev. pose proof (NewEmbeddedEtcdInstance_run path w) as Hrun.
        rewrite Hn in Hrun. simpl in Hrun.
        inversion Hrun as [msg0 wa H1 | p1 wa msg0 wb H1 H2 | p1 wa p2 wb res wc H1 H2 Hl];
          subst.
        - destruct (getFreePort_run _ _ _ _ _ H1) as (e1 & T1 & _ & _).
          rewrite T1. now rewrite drop_app_length.
        - destruct (getFreePort_run _ _ _ _ _ H1) as (e1 & T1 & _ & _).
          destruct (getFreePort_run _ _ _ _ _ H2) as (e2 & T2 & _ & _).
          rewrite T2, T1, <- app_assoc. now rewrite drop_app_length.
        - destruct (getFreePort_run _ _ _ _ _ H1) as (e1 & T1 & _ & _).
          destruct (getFreePort_run _ _ _ _ _ H2) as (e2 & T2 & _ & _).
          destruct (launched_events _ _ _ _ _ _ Hl) as (tl & T3 & _).
          rewrite T3, T2, T1, <- !app_assoc. now rewrite drop_app_length. }
      rewrite (canceled_after _ _ _ _ Htr), Hlive.
      now rewrite (alloc_events_cancel_nothing _ _ Ha).
    + destruct (launched_events _ _ _ _ _ _ Hl) as (tl & T3 & _ & Hc).
      rewrite (canceled_after _ _ _ _ T3), (canceled_after _ _ _ _ Ht3), Hlive.
      now rewrite (alloc_events_cancel_nothing _ _ Ha), Hc.
  - apply IH. rewrite teardown_run in Ht. injection Ht as _ <-.
    rewrite !canceled_log, Hlive, (cancels_other _ _ Hne).
    destruct keep; reflexivity.
Qed.

(** C7: a call that returns a teardown returns with it a descriptor whose
    context has not been canceled, and stays so through whatever the package
    does later, the teardown of other instances included; the teardown,
    whenever it is called, first cancels that context and then closes the
    instance the call started. *)
Theorem teardown_cancels_then_closes path w res w' teardown :
  cancels_known w = true ->
  New' path w = (Return res, w') ->
  res_cleanup res = Some teardown ->
  exists bc cfg etcd,
    res_config res = Some bc /\
    In (EvStartEtcd cfg (inr etcd)) (events_of w w') /\
    canceled w' (Ctx bc) = false /\
    (forall w2, later' (Ctx bc) w' w2 -> canceled w2 (Ctx bc) = false) /\
    (forall w2,
        exists w3,
          teardown w2 = (Return tt, w3) /\
          trace w3 = trace w2 ++ [EvCancel (Ctx bc); EvEtcdClose etcd] /\
          canceled w3 (Ctx bc) = true).
Proof.
  intros Hk H Hc.
  destruct (NewEmbeddedEtcdInstance_returns _ _ _ _ H)
    as (p1 & w1 & p2 & w2 & evs1 & evs2 & H1 & H2 & Hf1 & Hf2 & Ht2 & Hn2 & Hl).
  destruct Hl as [err w' Ht _ _ | w' etcd Ht _ _ | w' etcd ctx Ht _ _];
    try discriminate Hc.
  injection Hc as <-.
  rewrite Ht2, <- !app_assoc in Ht.
  assert (Hlive : canceled w' ctx = false).
  { rewrite (canceled_after _ _ _ _ Ht).
    unfold ctx. rewrite Hn2.
    rewrite (fresh_context_live _ _ Hk) by lia.
    rewrite !existsb_app.
    rewrite (alloc_events_cancel_nothing _ _ (follows_alloc_events _ _ _ _ Hf1)).
    rewrite (alloc_events_cancel_nothing _ _ (follows_alloc_events _ _ _ _ Hf2)).
    reflexivity. }
  eexists _, (listen_config embed_NewConfig path p1 p2), etcd.
  split; [reflexivity |]. simpl.
  split; [| split; [exact Hlive | split]].
  - rewrite (events_of_app _ _ _ Ht), !in_app_iff. right. right. simpl. auto.
  - intros w3 Hlater. exact (later_keeps_live _ _ _ Hlater Hlive).
  - intros w3. eexists. split; [apply teardown_run |]. split.
    + simpl. rewrite <- app_assoc. reflexivity.
    + rewrite !canceled_log, cancels_self, orb_true_r. reflexivity.
Qed.

(** *** The worlds a process can be in

    The hypotheses of the theorems above on the world hold in every world
    the process reaches: the cursor is between the base port and 65534, and
    every cancel in the history is that of a context that exists. *)

Lemma launched_fields path p1 p2 w2 res w' :
  launched' path p1 p2 w2 res w' ->
  lastPort w' = lastPort w2 /\ (nextRef w2 <= nextRef w')%nat.
Proof. destruct 1; split; try assumption; lia. Qed.




End InstanceFacts.

(** ** Goroutines *)

Lemma spent_le_1 pc : (spent pc <= 1)%nat.
Proof. destruct pc; simpl; try lia. destruct (65535 <=? port); lia. Qed.

Lemma spent_total_insert l : forall i x y,
  l !! i = Some x ->
  (spent_total (<[i := y]> l) + spent x = spent_total l + spent y)%nat.
Proof.
  induction l as [| a l IH]; intros [| i] x y H; simpl in *; try discriminate.
  - injection H as ->. lia.
  - specialize (IH _ _ y H). lia.
Qed.

Lemma spent_total_room l : forall i x,
  l !! i = Some x -> (spent_total l + 1 <= length l + spent x)%nat.
Proof.
  induction l as [| a l IH]; intros [| i] x H; simpl in *; try discriminate.
  - injection H as ->.
    assert (spent_total l <= length l)%nat; [| lia].
    clear. induction l as [| b l IH]; simpl; [lia |].
    pose proof (spent_le_1 b). lia.
  - specialize (IH _ _ H). pose proof (spent_le_1 a). lia.
Qed.

Section GoroutineFacts.

Variable bind_and_close : nat -> Z -> bool.
Variable c : Z.
Variable n : nat.
Hypothesis c_nonneg : 0 <= c.
Hypothesis c_room : c + Z.of_nat n < uint32_modulus.
Hypothesis n_room : 65535 + Z.of_nat n <= uint32_modulus.

Lemma ports_in_step_start : ports_in_step c n (start c n).
Proof.
  unfold ports_in_step, start. simpl.
  split; [apply length_replicate |]. split; [lia |]. split; [lia |].
  split.
  - intros i pc p H Hh. apply lookup_replicate in H as [-> _]. discriminate.
  - intros i j pc1 pc2 p _ H _ Hh _.
    apply lookup_replicate in H as [-> _]. discriminate.
Qed.

Lemma lookup_move_held (l : list Pc) i pc k pck p :
  <[i := pc]> l !! k = Some pck -> held pck = Some p ->
  (k = i /\ held pc = Some p) \/ (k <> i /\ l !! k = Some pck).
Proof.
  intros H Hh. destruct (decide (k = i)) as [-> | Hne].
  - left. split; [reflexivity |].
    assert (i < length l)%nat as Hi.
    { rewrite <- (length_insert l i pc). eapply lookup_lt_Some; eauto. }
    rewrite list_lookup_insert_eq in H by exact Hi. congruence.
  - right. rewrite list_lookup_insert_ne in H by congruence. auto.
Qed.

(** A move that keeps the cursor, and gives the goroutine nothing it did not
    hold before, keeps the invariant. *)
Lemma ports_in_step_keep s i old new :
  goroutines s !! i = Some old ->
  spent new = spent old ->
  (forall p, held new = Some p -> held old = Some p) ->
  ports_in_step c n s ->
  ports_in_step c n (move i new (cursor s) s).
Proof.
  intros Hi Hsp Hheld (Hlen & Hlo & Hhi & Hrange & Hdist).
  pose proof (spent_total_insert _ _ _ new Hi) as Hins.
  unfold ports_in_step, move. simpl.
  split; [rewrite length_insert; exact Hlen |].
  split; [exact Hlo |]. split; [lia |]. split.
  - intros k pck p Hk Hh.
    destruct (lookup_move_held _ _ _ _ _ _ Hk Hh) as [[-> Hn] | [_ Hk']].
    + exact (Hrange _ _ _ Hi (Hheld _ Hn)).
    + exact (Hrange _ _ _ Hk' Hh).
  - intros k j pc1 pc2 p Hkj Hk Hj Hh1 Hh2.
    destruct (lookup_move_held _ _ _ _ _ _ Hk Hh1) as [[-> Hn1] | [Hk1 Hk']];
      destruct (lookup_move_held _ _ _ _ _ _ Hj Hh2) as [[-> Hn2] | [Hj1 Hj']].
    + congruence.
    + exact (Hdist _ _ _ _ _ Hkj Hi Hj' (Hheld _ Hn1) Hh2).
    + exact (Hdist _ _ _ _ _ Hkj Hk' Hi Hh1 (Hheld _ Hn2)).
    + exact (Hdist _ _ _ _ _ Hkj Hk' Hj' Hh1 Hh2).
Qed.

Lemma ports_in_step_step s i :
  ports_in_step c n s -> ports_in_step c n (step bind_and_close i s).
Proof.
  intros Hinv. unfold step.
  destruct (goroutines s !! i) as [[| port | port |] |] eqn:Hi; try exact Hinv.
  - destruct Hinv as (Hlen & Hlo & Hhi & Hrange & Hdist).
    pose proof (spent_total_room _ _ _ Hi) as Hroom.
    pose proof (spent_total_insert _ _ _ (AtLoop (cursor s + 1)) Hi) as Hins.
    simpl in Hroom, Hins. rewrite Hlen in Hroom.
    rewrite Z.mod_small by lia.
    unfold ports_in_step, move. simpl.
    split; [rewrite length_insert; exact Hlen |].
    split; [lia |]. split.
    { destruct (Z.leb_spec 65535 (cursor s + 1)); lia. }
    split.
    + intros k pck p Hk Hh.
      destruct (lookup_move_held _ _ _ _ _ _ Hk Hh) as [[-> Hn] | [_ Hk']].
      * injection Hn as <-. lia.
      * specialize (Hrange _ _ _ Hk' Hh). lia.
    + intros k j pc1 pc2 p Hkj Hk Hj Hh1 Hh2.
      destruct (lookup_move_held _ _ _ _ _ _ Hk Hh1) as [[-> Hn1] | [Hk1 Hk']];
        destruct (lookup_move_held _ _ _ _ _ _ Hj Hh2) as [[-> Hn2] | [Hj1 Hj']].
      * congruence.
      * injection Hn1 as <-. specialize (Hrange _ _ _ Hj' Hh2). lia.
      * injection Hn2 as <-. specialize (Hrange _ _ _ Hk' Hh1). lia.
      * exact (Hdist _ _ _ _ _ Hkj Hk' Hj' Hh1 Hh2).
  - destruct (Z.ltb_spec port 65535) as [Hlt | Hge].
    + destruct (bind_and_close (clock s) port);
        apply (ports_in_step_keep _ _ _ _ Hi); auto; simpl;
        try (destruct (Z.leb_spec 65535 port); lia); discriminate.
    + apply (ports_in_step_keep _ _ _ _ Hi); auto; simpl;
        try (destruct (Z.leb_spec 65535 port); lia); discriminate.
Qed.

Lemma ports_in_step_run schedule :
  forall s, ports_in_step c n s ->
            ports_in_step c n (run bind_and_close schedule s).
Proof.
  induction schedule as [| i rest IH]; intros s H; simpl; [exact H |].
  apply IH. now apply ports_in_step_step.
Qed.

(** C8: however the scheduler interleaves [n] goroutines calling the
    allocator, two of them never return the same port, as long as a uint32
    has room for the increments [n] goroutines can make. *)
Theorem concurrent_ports_distinct schedule i j p q :
  i <> j ->
  goroutines (run bind_and_close schedule (start c n)) !! i = Some (Returned p) ->
  goroutines (run bind_and_close schedule (start c n)) !! j = Some (Returned q) ->
  p <> q.
Proof.
  intros Hij Hi Hj E. subst q.
  destruct (ports_in_step_run schedule _ ports_in_step_start)
    as (_ & _ & _ & _ & Hdist).
  exact (Hdist _ _ _ _ _ Hij Hi Hj eq_refl eq_refl).
Qed.

End GoroutineFacts.

(** *** One goroutine alone

    Left alone, a goroutine of the model above runs the same algorithm as
    [getFreePort]: what it ends with is the outcome of a run of [follows]
    from the cursor it started at. *)

Section GoroutineAlone.

Variable bind_and_close : nat -> Z -> bool.

Lemma run_finished k pc cur t :
  held pc = None \/ (exists p, pc = Returned p) -> pc <> AtAdd ->
  run bind_and_close (replicate k 0%nat)
    {| cursor := cur; goroutines := [pc]; clock := t |} =
  {| cursor := cur; goroutines := [pc]; clock := t |}.
Proof.
  intros Hpc Hna. induction k as [| k IH]; simpl; [reflexivity |].
  destruct pc as [| port | port |]; simpl in *.
  - congruence.
  - destruct Hpc as [? | [p ?]]; discriminate.
  - exact IH.
  - exact IH.
Qed.

Lemma alone_follows_retry c0 s :
  next c0 < 65535 -> alone_follows (next c0) s -> alone_follows c0 s.
Proof.
  unfold alone_follows. intros Hlt H.
  destruct (goroutines s) as [| [| port | port |] [|]]; auto;
    destruct H as [evs Hf]; eexists; apply follows_in_use; eauto.
Qed.

Lemma goroutine_alone k :
  forall c0 t,
    alone_follows c0
      (run bind_and_close (replicate k 0%nat)
         {| cursor := c0; goroutines := [AtAdd]; clock := t |}) /\
    alone_follows c0
      (run bind_and_close (replicate k 0%nat)
         {| cursor := next c0; goroutines := [AtLoop (next c0)]; clock := t |}).
Proof.
  induction k as [| k IH]; intros c0 t.
  - split; exact I.
  - split.
    + simpl. unfold step, move. simpl. fold (next c0).
      exact (proj2 (IH c0 (S t))).
    + simpl. unfold step, move. simpl.
      destruct (Z.ltb_spec (next c0) 65535) as [Hlt | Hge].
      * destruct (bind_and_close t (next c0)).
        -- rewrite run_finished; [| right; eauto | discriminate].
           unfold alone_follows. simpl. eexists. now apply follows_found.
        -- apply alone_follows_retry; [exact Hlt |].
           exact (proj1 (IH (next c0) (S t))).
      * rewrite run_finished; [| left; reflexivity | discriminate].
        unfold alone_follows. simpl. eexists. now apply follows_exhausted.
Qed.

End GoroutineAlone.

(** ** The theorems at work on the sample environment *)

Ltac find_event := simpl; repeat (first [left; reflexivity | right]).

Ltac no_event H :=
  vm_compute in H; repeat (destruct H as [H | H]; [discriminate H |]); exact H.

Lemma init_cursor_ok : cursor_ok init_world.
Proof.
  unfold cursor_ok, init_world, defaultEtcdPort. rewrite uint32_modulus_eq.
  simpl. lia.
Defined.

Lemma getFreePort_algorithm_witness :
  (getFreePort sample_Listen sample_Close init_world).1 = Return 2381 /\
  lastPort init_world <
  lastPort (getFreePort sample_Listen sample_Close init_world).2.
Proof.
  destruct (getFreePort_algorithm sample_Listen sample_Close init_world)
    as (evs & _ & _ & Hadv & _ & Hgives).
  split.
  - erewrite (Hgives (Return 2381)); [reflexivity |].
    eapply allocates_in_use; [reflexivity | reflexivity |].
    eapply allocates_free; reflexivity.
  - apply Hadv.
    + unfold init_world, defaultEtcdPort. simpl. lia.
    + rewrite uint32_modulus_eq. unfold init_world, defaultEtcdPort. simpl. lia.
Defined.

Lemma getFreePort_exhaustion_witness :
  0 <= lastPort nearly_exhausted /\
  lastPort nearly_exhausted + 1 < uint32_modulus /\
  (getFreePort none_free sample_Close nearly_exhausted).1 = Panicked no_ports.
Proof.
  assert (H0 : 0 <= lastPort nearly_exhausted) by (simpl; lia).
  assert (H1 : lastPort nearly_exhausted + 1 < uint32_modulus)
    by (rewrite uint32_modulus_eq; simpl; lia).
  split; [exact H0 |]. split; [exact H1 |].
  apply (proj1 (getFreePort_exhaustion none_free sample_Close
                  nearly_exhausted H0 H1)).
  vm_compute. discriminate.
Defined.

Lemma getFreePort_port_range_witness :
  cursor_ok init_world /\
  getFreePort sample_Listen sample_Close init_world =
    (Return 2381, (getFreePort sample_Listen sample_Close init_world).2) /\
  2380 <= 2381 <= 65534.
Proof.
  split; [exact init_cursor_ok |]. split; [reflexivity |].
  exact (proj1 (getFreePort_port_range sample_Listen sample_Close init_world
                  2381 _ init_cursor_ok eq_refl)).
Defined.

Lemma descriptor_fields_witness :
  ready_run = (Return (result_of ready_run), ready_run.2) /\
  res_err (result_of ready_run) = None /\
  exists bc cfg etcd client peer,
    res_config (result_of ready_run) = Some bc /\
    In (EvStartEtcd cfg (inr etcd)) (events_of init_world ready_run.2) /\
    (forall cfg' sres,
        In (EvStartEtcd cfg' sres) (events_of init_world ready_run.2) ->
        cfg' = cfg) /\
    embed.LCUrls cfg = [ {| url.Host := client |} ] /\
    embed.LPUrls cfg = [ {| url.Host := peer |} ] /\
    client <> peer /\
    Host bc = "http://" +:+ peer /\
    Host bc <> "http://" +:+ client /\
    User bc = "user" /\
    Pass bc = "pass" /\
    InsecureSkipVerify bc = true.
Proof.
  split; [reflexivity |]. split; [reflexivity |].
  exact (descriptor_fields sample_Listen sample_Close sample_NewConfig
           launch_ok always_ready whole_seconds sample_path init_world
           (result_of ready_run) ready_run.2 eq_refl eq_refl).
Defined.

Lemma client_and_peer_ports_differ_witness :
  ready_run = (Return (result_of ready_run), ready_run.2) /\
  exists p1 w1 p2 w2 evs1 evs2 cfg sres tail,
    getFreePort sample_Listen sample_Close init_world = (Return p1, w1) /\
    getFreePort sample_Listen sample_Close w1 = (Return p2, w2) /\
    follows (lastPort init_world) evs1 (Return p1) p1 /\
    follows p1 evs2 (Return p2) p2 /\
    events_of init_world ready_run.2 =
      evs1 ++ evs2 ++ EvStartEtcd cfg sres :: tail /\
    embed.LCUrls cfg = [ {| url.Host := Sprintf_addr p1 |} ] /\
    embed.LPUrls cfg = [ {| url.Host := Sprintf_addr p2 |} ] /\
    p1 <> p2 /\
    Sprintf_addr p1 <> Sprintf_addr p2.
Proof.
  split; [reflexivity |].
  exact (client_and_peer_ports_differ sample_Listen sample_Close
           sample_NewConfig launch_ok always_ready whole_seconds sample_path
           init_world (result_of ready_run) ready_run.2 eq_refl).
Defined.


Lemma launch_failure_witness :
  In (EvStartEtcd (listen_config sample_NewConfig sample_path 2381 2382)
        (inl "listen tcp 127.0.0.1:2382: bind: address already in use"))
     (events_of init_world failed_run.2) /\
  exists res,
    failed_run.1 = Return res /\ res_config res = None /\
    res_cleanup res = None /\
    res_err res =
      Some "listen tcp 127.0.0.1:2382: bind: address already in use".
Proof.
  assert (Hin :
    In (EvStartEtcd (listen_config sample_NewConfig sample_path 2381 2382)
          (inl "listen tcp 127.0.0.1:2382: bind: address already in use"))
       (events_of init_world failed_run.2)) by find_event.
  split; [exact Hin |].
  exact (proj1 (launch_failure sample_Listen sample_Close sample_NewConfig
                  launch_fails always_ready whole_seconds sample_path
                  init_world failed_run.1 failed_run.2 _ _ eq_refl Hin)).
Defined.

Lemma readiness_timeout_witness :
  In (EvStartEtcd (listen_config sample_NewConfig sample_path 2381 2382)
        (inr (embed.EtcdRef 0)))
     (events_of init_world timed_out_run.2) /\
  ~ In (EvReadyNotify (embed.EtcdRef 0)) (events_of init_world timed_out_run.2) /\
  exists res,
    timed_out_run.1 = Return res /\ res_config res = None /\
    res_cleanup res = None /\
    res_err res =
      Some ("etcd failed to start after: " +:+ whole_seconds readyTimeout).
Proof.
  assert (Hin :
    In (EvStartEtcd (listen_config sample_NewConfig sample_path 2381 2382)
          (inr (embed.EtcdRef 0)))
       (events_of init_world timed_out_run.2)) by find_event.
  assert (Hnr :
    ~ In (EvReadyNotify (embed.EtcdRef 0))
         (events_of init_world timed_out_run.2)) by (intros H; no_event H).
  split; [exact Hin |]. split; [exact Hnr |].
  exact (proj1 (readiness_timeout sample_Listen sample_Close sample_NewConfig
                  launch_ok never_ready whole_seconds sample_path
                  init_world timed_out_run.1 timed_out_run.2 _ _ eq_refl
                  Hin Hnr)).
Defined.

Lemma teardown_cancels_then_closes_witness :
  cancels_known init_world = true /\
  res_cleanup (result_of ready_run) = Some (teardown_of (result_of ready_run)) /\
  exists bc cfg etcd,
    res_config (result_of ready_run) = Some bc /\
    In (EvStartEtcd cfg (inr etcd)) (events_of init_world ready_run.2) /\
    canceled ready_run.2 (Ctx bc) = false /\
    (forall w2,
        later sample_Listen sample_Close sample_NewConfig launch_ok
          always_ready whole_seconds (Ctx bc) ready_run.2 w2 ->
        canceled w2 (Ctx bc) = false) /\
    (forall w2,
        exists w3,
          teardown_of (result_of ready_run) w2 = (Return tt, w3) /\
          trace w3 = trace w2 ++ [EvCancel (Ctx bc); EvEtcdClose etcd] /\
          canceled w3 (Ctx bc) = true).
Proof.
  split; [reflexivity |]. split; [reflexivity |].
  exact (teardown_cancels_then_closes sample_Listen sample_Close
           sample_NewConfig launch_ok always_ready whole_seconds sample_path
           init_world (result_of ready_run) ready_run.2
           (teardown_of (result_of ready_run)) eq_refl eq_refl eq_refl).
Defined.

Lemma concurrent_ports_distinct_witness :
  goroutines (run sample_bind_and_close sample_schedule (start 2379 3)) =
    [Returned 2380; Returned 2383; Returned 2382] /\
  2383 <> 2382.
Proof.
  split; [reflexivity |].
  apply (concurrent_ports_distinct sample_bind_and_close 2379 3)
    with (schedule := sample_schedule) (i := 1%nat) (j := 2%nat).
  - lia.
  - rewrite uint32_modulus_eq. lia.
  - rewrite uint32_modulus_eq. lia.
  - lia.
  - reflexivity.
  - reflexivity.
Defined.

(** ** More on the allocator *)




Lemma follows_closes_what_it_opens c evs r c' :
  follows c evs r c' -> closes_what_it_opens evs = true.
Proof.
  induction 1; simpl; try reflexivity.
  - now rewrite String.eqb_refl.
  - assumption.
  - now rewrite String.eqb_refl.
Qed.

Lemma closes_what_it_opens_app_len n :
  forall evs more,
    (length evs <= n)%nat ->
    closes_what_it_opens evs = true ->
    closes_what_it_opens (evs ++ more) = closes_what_it_opens more.
Proof.
  induction n as [| n IH]; intros evs more Hlen Hc.
  - destruct evs; [reflexivity | simpl in Hlen; lia].
  - destruct evs as [| e evs]; [reflexivity |].
    simpl in Hlen.
    destruct e as [new | a [|] | a ok | cfg res | e | e d | e | ctx | ctx];
      simpl in Hc |- *; try discriminate Hc; try (apply IH; [lia | exact Hc]).
    destruct evs as [| [new | a' ok' | b ok' | cfg res | e | e d | e | ctx | ctx] evs];
      try discriminate Hc.
    simpl. apply andb_prop in Hc as [Hab Hrest]. rewrite Hab. simpl.
    apply IH; [simpl in Hlen; lia | exact Hrest].
Qed.

Lemma closes_what_it_opens_app evs more :
  closes_what_it_opens evs = true ->
  closes_what_it_opens (evs ++ more) = closes_what_it_opens more.
Proof. apply (closes_what_it_opens_app_len (length evs)). lia. Qed.

Section AllocatorMore.

Variable net_Listen : World -> string -> bool.
Variable Listener_Close : World -> string -> bool.

Local Abbreviation getFreePort' := (getFreePort net_Listen Listener_Close).

Lemma getFreePort_loop_S fuel port :
  port < 65535 ->
  getFreePort_loop net_Listen Listener_Close (S fuel) port =
  (free <- probe net_Listen Listener_Close port ;;
   if free then ret port
   else (port' <- atomic_AddUint32 1 ;;
         getFreePort_loop net_Listen Listener_Close fuel port')).
Proof.
  intros H. cbn [getFreePort_loop].
  destruct (Z.ltb_spec port 65535); [reflexivity | lia].
Qed.



(** X3: a call leaves no listener open and touches nothing else: each
    listener it opens is closed by its very next action, all it does is
    increment, listen and close, and it makes no new reference. *)
Theorem getFreePort_leaks_no_listener w :
  closes_what_it_opens (events_of w (getFreePort' w).2) = true /\
  forallb alloc_event (events_of w (getFreePort' w).2) = true /\
  nextRef (getFreePort' w).2 = nextRef w.
Proof.
  destruct (getFreePort_follows net_Listen Listener_Close w)
    as (evs & Ht & Hn & Hf).
  rewrite (events_of_app _ _ _ Ht).
  split; [exact (follows_closes_what_it_opens _ _ _ _ Hf) |].
  split; [exact (follows_alloc_events _ _ _ _ Hf) | exact Hn].
Qed.

(** X4: when the uint32 cursor is at its last value the increment wraps to
    0, and if the system lets 127.0.0.1:0 be bound and released the call
    returns port 0. *)
Theorem getFreePort_wraps_to_port_0 w :
  next (lastPort w) = 0 ->
  (forall w0, net_Listen w0 "127.0.0.1:0" = true) ->
  (forall w0, Listener_Close w0 "127.0.0.1:0" = true) ->
  (getFreePort' w).1 = Return 0 /\ lastPort (getFreePort' w).2 = 0.
Proof.
  intros Hn Hl Hc.
  assert (exists w2, getFreePort' w = (Return 0, w2) /\ lastPort w2 = 0)
    as (w2 & E & Hw2); [| rewrite E; auto].
  unfold getFreePort, bind at 1, atomic_AddUint32. fold (next (lastPort w)).
  rewrite Hn.
  replace (Z.to_nat (65535 - 0)) with (S (Z.to_nat 65534)) by lia.
  rewrite getFreePort_loop_S by lia.
  unfold probe. unfold bind, Listen, Close, ret.
  change (Sprintf_addr 0) with "127.0.0.1:0".
  cbv beta. rewrite Hl. cbv beta iota. rewrite Hc.
  eexists. split; reflexivity.
Qed.

End AllocatorMore.

(** ** More on starting an instance *)

Section InstanceMore.

Variable net_Listen : World -> string -> bool.
Variable Listener_Close : World -> string -> bool.
Variable embed_NewConfig : embed.Config.
Variable embed_StartEtcd : World -> embed.Config -> option error.
Variable ReadyNotify_first : World -> embed.Etcd -> bool.
Variable Duration_String : Z -> string.

Local Abbreviation getFreePort' := (getFreePort net_Listen Listener_Close).
Local Abbreviation New' :=
  (NewEmbeddedEtcdInstance net_Listen Listener_Close embed_NewConfig
     embed_StartEtcd ReadyNotify_first Duration_String).
Local Abbreviation launched' := (launched embed_NewConfig Duration_String).
Local Abbreviation went_on' :=
  (went_on net_Listen Listener_Close embed_NewConfig embed_StartEtcd
     ReadyNotify_first Duration_String).

Local Abbreviation run_of :=
  (NewEmbeddedEtcdInstance_run net_Listen Listener_Close embed_NewConfig
     embed_StartEtcd ReadyNotify_first Duration_String).
Local Abbreviation returns_of :=
  (NewEmbeddedEtcdInstance_returns net_Listen Listener_Close embed_NewConfig
     embed_StartEtcd ReadyNotify_first Duration_String).

(** X5: the only panic of a call is the allocator's.  The call panics
    exactly when its first allocation does, or its second after the first
    returned; the message is the allocator's, and until then the call has
    done nothing but allocate: no instance was launched and no reference
    made. *)
Theorem instance_panics_with_allocator path w msg w' :
  (New' path w = (Panicked msg, w') <->
   getFreePort' w = (Panicked msg, w') \/
   exists p1 w1,
     getFreePort' w = (Return p1, w1) /\
     getFreePort' w1 = (Panicked msg, w')) /\
  (New' path w = (Panicked msg, w') ->
   msg = no_ports /\
   forallb alloc_event (events_of w w') = true /\
   nextRef w' = nextRef w).
Proof.
  split; [split |].
  - intros H. pose proof (run_of path w) as Hrun.
    rewrite H in Hrun. simpl in Hrun.
    inversion Hrun as [msg0 w1 H1 | p1 w1 msg0 w2 H1 H2 |]; subst; eauto.
  - unfold NewEmbeddedEtcdInstance.
    intros [H1 | (p1 & w1 & H1 & H2)].
    + now rewrite (bind_Panicked _ _ _ _ _ H1).
    + rewrite (bind_Return _ _ _ _ _ H1). now rewrite (bind_Panicked _ _ _ _ _ H2).
  - intros H.
    destruct (NewEmbeddedEtcdInstance_panics _ _ _ _ _ _ _ _ _ _ H)
      as (evs & Ht & Ha & Hn).
    rewrite (events_of_app _ _ _ Ht). split; [| auto].
    pose proof (run_of path w) as Hrun.
    rewrite H in Hrun. simpl in Hrun.
    inversion Hrun as [msg0 w1 H1 | p1 w1 msg0 w2 H1 H2 |]; subst.
    + destruct (getFreePort_run _ _ _ _ _ H1) as (e1 & _ & _ & Hf).
      exact (proj1 (follows_panic _ _ _ _ Hf)).
    + destruct (getFreePort_run _ _ _ _ _ H2) as (e1 & _ & _ & Hf).
      exact (proj1 (follows_panic _ _ _ _ Hf)).
Qed.

(** X6: what a call returns is either a descriptor and a teardown with a nil
    error, or an error with a nil descriptor and a nil teardown. *)
Theorem descriptor_or_error path w res w' :
  NewEmbeddedEtcdInstance net_Listen Listener_Close embed_NewConfig
    embed_StartEtcd ReadyNotify_first Duration_String path w =
    (Return res, w') ->
  (res_err res = None /\
   (exists bc, res_config res = Some bc) /\
   (exists teardown, res_cleanup res = Some teardown))
  \/ ((exists err, res_err res = Some err) /\
      res_config res = None /\ res_cleanup res = None).
Proof.
  intros H.
  destruct (returns_of _ _ _ _ H)
    as (p1 & w1 & p2 & w2 & evs1 & evs2 & _ & _ & _ & _ & _ & _ & Hl).
  destruct Hl; simpl; eauto 10.
Qed.

(** X7: a call starts at most one instance, and when it returns that
    instance has been closed exactly if the call returns an error. *)
Theorem instance_left_open_only_with_descriptor path w res w' cfg etcd :
  New' path w = (Return res, w') ->
  In (EvStartEtcd cfg (inr etcd)) (events_of w w') ->
  (forall cfg' etcd',
      In (EvStartEtcd cfg' (inr etcd')) (events_of w w') ->
      cfg' = cfg /\ etcd' = etcd) /\
  existsb (closes_instance etcd) (events_of w w') =
    match res_err res with
    | Some _ => true
    | None => false
    end.
Proof.
  intros H Hin.
  destruct (returns_of _ _ _ _ H)
    as (p1 & w1 & p2 & w2 & evs1 & evs2 & _ & _ & Hf1 & Hf2 & Ht2 & _ & Hl).
  pose proof (follows_alloc_events _ _ _ _ Hf1) as Ha1.
  pose proof (follows_alloc_events _ _ _ _ Hf2) as Ha2.
  assert (Hcl : forall evs, forallb alloc_event evs = true ->
                            existsb (closes_instance etcd) evs = false).
  { clear. induction evs as [| e evs IH]; simpl; [reflexivity |].
    intros Ha. apply andb_prop in Ha as [He Hr]. rewrite (IH Hr).
    destruct e; try discriminate He; reflexivity. }
  assert (Hst : forall evs c r, forallb alloc_event evs = true ->
                                ~ In (EvStartEtcd c r) evs).
  { intros evs c r Ha Hi. now apply (alloc_event_in _ _ Ha) in Hi. }
  destruct Hl as [err w' Ht _ _ | w' etcd0 Ht _ _ | w' etcd0 ctx Ht _ _];
    rewrite Ht2, <- !app_assoc in Ht; rewrite (events_of_app _ _ _ Ht) in *;
    rewrite !existsb_app, (Hcl _ Ha1), (Hcl _ Ha2);
    rewrite !in_app_iff in Hin;
    destruct Hin as [Hin | [Hin | Hin]];
    try (destruct (Hst _ _ _ Ha1 Hin)); try (destruct (Hst _ _ _ Ha2 Hin));
    simpl in Hin; destruct Hin as [E | Hin]; try (intuition discriminate);
    injection E as <- <-; (split; [| destruct etcd0 as [k]; simpl;
                                     rewrite ?Nat.eqb_refl; reflexivity]);
    intros cfg' etcd'; rewrite !in_app_iff;
    intros [Hi | [Hi | Hi]];
    try (destruct (Hst _ _ _ Ha1 Hi)); try (destruct (Hst _ _ _ Ha2 Hi));
    simpl in Hi; destruct Hi as [E | Hi]; try (intuition discriminate);
    injection E; auto.
Qed.

End InstanceMore.

(** ** Calls one after another *)

Section CallsInSequence.

Variable net_Listen : World -> string -> bool.
Variable Listener_Close : World -> string -> bool.
Variable embed_NewConfig : embed.Config.
Variable embed_StartEtcd : World -> embed.Config -> option error.
Variable ReadyNotify_first : World -> embed.Etcd -> bool.
Variable Duration_String : Z -> string.

Local Abbreviation getFreePort' := (getFreePort net_Listen Listener_Close).
Local Abbreviation New' :=
  (NewEmbeddedEtcdInstance net_Listen Listener_Close embed_NewConfig
     embed_StartEtcd ReadyNotify_first Duration_String).
Local Abbreviation launched' := (launched embed_NewConfig Duration_String).
Local Abbreviation went_on' :=
  (went_on net_Listen Listener_Close embed_NewConfig embed_StartEtcd
     ReadyNotify_first Duration_String).
Local Abbreviation returns_of :=
  (NewEmbeddedEtcdInstance_returns net_Listen Listener_Close embed_NewConfig
     embed_StartEtcd ReadyNotify_first Duration_String).

Lemma getFreePort_returns_above w p w' :
  0 <= lastPort w < 65535 ->
  getFreePort' w = (Return p, w') ->
  lastPort w < p /\ lastPort w' = p /\ p < 65535 /\ nextRef w' = nextRef w.
Proof.
  intros Hc H.
  destruct (getFreePort_run _ _ _ _ _ H) as (evs & _ & Hn & Hf).
  destruct (follows_return _ _ _ _ Hf) as [E Hr].
  assert (lastPort w < lastPort w').
  { apply (follows_advances _ _ _ _ Hf); [lia |].
    rewrite uint32_modulus_eq. lia. }
  repeat split; lia.
Qed.

Lemma instance_returns_above path w res w' :
  0 <= lastPort w < 65535 ->
  New' path w = (Return res, w') ->
  exists p1 p2 w2,
    lastPort w < p1 < p2 /\ lastPort w' = p2 /\ p2 < 65535 /\
    nextRef w2 = nextRef w /\
    launched' path p1 p2 w2 res w'.
Proof.
  intros Hc H.
  destruct (returns_of _ _ _ _ H)
    as (p1 & w1 & p2 & w2 & evs1 & evs2 & H1 & H2 & _ & _ & _ & Hn2 & Hl).
  destruct (getFreePort_returns_above _ _ _ Hc H1) as (Hp1 & E1 & Hb1 & _).
  destruct (getFreePort_returns_above w1 p2 w2) as (Hp2 & E2 & Hb2 & _);
    [lia | exact H2 |].
  destruct (launched_fields _ _ _ _ _ _ _ _ Hl) as [El _].
  exists p1, p2, w2. repeat split; try lia; try assumption; congruence.
Qed.

Lemma went_on_keeps_order w1 w2 :
  went_on' w1 w2 ->
  0 <= lastPort w1 < 65535 ->
  lastPort w1 <= lastPort w2 < 65535 /\ (nextRef w1 <= nextRef w2)%nat.
Proof.
  induction 1 as [w | w p w1 w2 Hg _ IH | path w res w1 w2 Hn _ IH
                  | ctx etcd w r w1 w2 Ht _ IH]; intros Hc.
  - split; lia.
  - destruct (getFreePort_returns_above _ _ _ Hc Hg) as (Hp & E & Hb & Hn).
    destruct IH as [Hl Hr]; [lia |]. split; lia.
  - destruct (instance_returns_above _ _ _ _ Hc Hn)
      as (p1 & p2 & w0 & Hp & E & Hb & Hn0 & Hl).
    destruct (launched_fields _ _ _ _ _ _ _ _ Hl) as [_ Hnl].
    destruct IH as [Hl' Hr]; [lia |]. split; lia.
  - rewrite teardown_run in Ht. injection Ht as _ <-.
    destruct IH as [Hl Hr]; [simpl; lia |]. simpl in *. split; lia.
Qed.

(** X8: a port is never handed out twice.  Whatever allocations, instance
    starts and teardowns return between two allocations, the later one
    returns a greater port than the earlier one. *)
Theorem ports_never_handed_out_twice w p w1 w2 q w3 :
  getFreePort net_Listen Listener_Close w = (Return p, w1) ->
  went_on net_Listen Listener_Close embed_NewConfig embed_StartEtcd
    ReadyNotify_first Duration_String w1 w2 ->
  getFreePort net_Listen Listener_Close w2 = (Return q, w3) ->
  p < q.
Proof.
  intros H1 Hgo H2.
  destruct (getFreePort_run _ _ _ _ _ H1) as (evs & _ & _ & Hf).
  destruct (follows_return _ _ _ _ Hf) as [E Hr].
  destruct (went_on_keeps_order _ _ Hgo) as [Hl _]; [lia |].
  destruct (getFreePort_returns_above w2 q w3) as (Hq & _); [lia | exact H2 |].
  lia.
Qed.

(** X9: two instances share nothing.  When a call has returned a descriptor
    and a later call returns another, the four listen ports are in strictly
    increasing order, and the two descriptors have different hosts and
    different contexts. *)
Theorem instances_share_nothing path1 w res1 w1 w2 path2 res2 w3 bc1 bc2 :
  New' path1 w = (Return res1, w1) ->
  went_on' w1 w2 ->
  New' path2 w2 = (Return res2, w3) ->
  res_config res1 = Some bc1 ->
  res_config res2 = Some bc2 ->
  (exists p1 p2 q1 q2,
      0 <= p1 < p2 /\ p2 < q1 < q2 /\
      Host bc1 = "http://" +:+ Sprintf_addr p2 /\
      Host bc2 = "http://" +:+ Sprintf_addr q2 /\
      In (EvStartEtcd (listen_config embed_NewConfig path1 p1 p2)
            (inr (embed.EtcdRef (nextRef w))))
         (events_of w w1) /\
      In (EvStartEtcd (listen_config embed_NewConfig path2 q1 q2)
            (inr (embed.EtcdRef (nextRef w2))))
         (events_of w2 w3)) /\
  Host bc1 <> Host bc2 /\
  Ctx bc1 <> Ctx bc2 /\
  (nextRef w < nextRef w2)%nat.
Proof.
  intros H1 Hgo H2 Hc1 Hc2.
  destruct (returns_of _ _ _ _ H1)
    as (p1 & wa & p2 & wb & ea1 & ea2 & Ha1 & Ha2 & Hfa1 & Hfa2 & Hta & Hna & Hla).
  destruct (returns_of _ _ _ _ H2)
    as (q1 & wc & q2 & wd & eb1 & eb2 & Hb1 & Hb2 & Hfb1 & Hfb2 & Htb & Hnb & Hlb).
  destruct (two_ports_differ _ _ _ _ _ Hfa1 Hfa2) as [Hp _].
  destruct (follows_return _ _ _ _ Hfa2) as [_ Hr2].
  destruct (launched_fields _ _ _ _ _ _ _ _ Hla) as [Ela Hnla].
  destruct (getFreePort_run _ _ _ _ _ Ha2) as (e0 & _ & _ & Hf0).
  destruct (follows_return _ _ _ _ Hf0) as [E2 _].
  assert (Hw1 : lastPort w1 = p2) by congruence.
  destruct (went_on_keeps_order _ _ Hgo) as [Hl Hn]; [lia |].
  destruct (two_ports_differ _ _ _ _ _ Hfb1 Hfb2) as [Hq' _].
  assert (Hq1 : lastPort w2 < q1).
  { destruct (getFreePort_returns_above w2 q1 wc) as (Hlt & _);
      [lia | exact Hb1 | exact Hlt]. }
  destruct Hla as [err w1 Hta' Hra _ | w1 etcd1 Hta' Hra _ | w1 etcd1 ctx1 Hta' Hra _];
    try discriminate Hc1.
  destruct Hlb as [err w3 Htb' Hrb _ | w3 etcd2 Htb' Hrb _ | w3 etcd2 ctx2 Htb' Hrb _];
    try discriminate Hc2.
  simpl in Hc1, Hc2. injection Hc1 as <-. injection Hc2 as <-. simpl.
  rewrite Hta, <- !app_assoc in Hta'. rewrite (events_of_app _ _ _ Hta').
  rewrite Htb, <- !app_assoc in Htb'. rewrite (events_of_app _ _ _ Htb').
  split; [| split; [| split]].
  - exists p1, p2, q1, q2. repeat split; try lia.
    + rewrite !in_app_iff. right. right. left. unfold etcd1. now rewrite Hna.
    + rewrite !in_app_iff. right. right. left. unfold etcd2. now rewrite Hnb.
  - intros E. apply (String.app_inj "http://") in E.
    apply Sprintf_addr_inj in E; lia.
  - unfold ctx1, ctx2. rewrite Hna, Hnb. intros E. injection E as E. lia.
  - lia.
Qed.

End CallsInSequence.

(** ** More on goroutines *)

Lemma spent_total_le l : (spent_total l <= length l)%nat.
Proof.
  induction l as [| pc l IH]; simpl; [lia |].
  pose proof (spent_le_1 pc). lia.
Qed.

Lemma lookup_moved (l : list Pc) i pc k pck :
  <[i := pc]> l !! k = Some pck ->
  (k = i /\ pck = pc) \/ (k <> i /\ l !! k = Some pck).
Proof.
  intros H. destruct (decide (k = i)) as [-> | Hne].
  - left. split; [reflexivity |].
    assert (i < length l)%nat as Hi.
    { rewrite <- (length_insert l i pc). eapply lookup_lt_Some; eauto. }
    rewrite list_lookup_insert_eq in H by exact Hi. congruence.
  - right. rewrite list_lookup_insert_ne in H by congruence. auto.
Qed.

Lemma moves_left_nonneg cur pc : 0 <= moves_left cur pc.
Proof. destruct pc; simpl; lia. Qed.

Lemma moves_left_0 cur pc : moves_left cur pc <= 0 -> finished pc = true.
Proof. destruct pc; simpl; intros H; try reflexivity; lia. Qed.

Lemma moves_left_cursor_grows cur cur' pc :
  cur <= cur' -> moves_left cur' pc <= moves_left cur pc.
Proof. destruct pc; simpl; lia. Qed.

Section GoroutineMore.

Variable bind_and_close : nat -> Z -> bool.
Variable c : Z.
Variable n : nat.
Hypothesis c_nonneg : 0 <= c.
Hypothesis c_room : c + Z.of_nat n < uint32_modulus.
Hypothesis n_room : 65535 + Z.of_nat n <= uint32_modulus.

Local Abbreviation run' := (run bind_and_close).
Local Abbreviation step' := (step bind_and_close).
Local Abbreviation in_step_run :=
  (ports_in_step_run bind_and_close c n c_nonneg c_room n_room).
Local Abbreviation in_step_step :=
  (ports_in_step_step bind_and_close c n c_nonneg c_room n_room).
Local Abbreviation in_step_start := (ports_in_step_start c n).

Lemma run_app a : forall b s, run' (a ++ b) s = run' b (run' a s).
Proof. induction a as [| i a IH]; intros b s; simpl; [reflexivity | apply IH]. Qed.

Lemma returned_below_step s i : returned_below s -> returned_below (step' i s).
Proof.
  intros Hinv. unfold step.
  destruct (goroutines s !! i) as [[| port | port |] |] eqn:Hi; try exact Hinv.
  - intros k p Hk. simpl in Hk.
    destruct (lookup_moved _ _ _ _ _ Hk) as [[_ E] | [_ Hk']];
      [discriminate | eauto].
  - destruct (Z.ltb_spec port 65535) as [Hlt | Hge];
      [destruct (bind_and_close (clock s) port) |];
      intros k p Hk; simpl in Hk;
      destruct (lookup_moved _ _ _ _ _ Hk) as [[_ E] | [_ Hk']];
      try discriminate; eauto.
    injection E as ->. exact Hlt.
Qed.

Lemma returned_below_run schedule :
  forall s, returned_below s -> returned_below (run' schedule s).
Proof.
  induction schedule as [| i rest IH]; intros s H; simpl; [exact H |].
  apply IH. now apply returned_below_step.
Qed.

(** X10: under any schedule, a port a goroutine returns is above the cursor
    the goroutines started from and below 65535. *)
Theorem concurrent_ports_in_range schedule i p :
  goroutines (run' schedule (start c n)) !! i = Some (Returned p) ->
  c < p < 65535.
Proof.
  intros Hi. split.
  - destruct (in_step_run schedule _ in_step_start) as (_ & _ & _ & Hr & _).
    exact (proj1 (Hr _ _ _ Hi eq_refl)).
  - apply (returned_below_run schedule (start c n)) with (k := i); [| exact Hi].
    intros k q Hk. simpl in Hk. apply lookup_replicate in Hk as [E _].
    discriminate.
Qed.

Lemma cursor_grows_step s i :
  ports_in_step c n s -> cursor s <= cursor (step' i s).
Proof.
  intros (Hlen & Hlo & Hhi & _). unfold step.
  destruct (goroutines s !! i) as [[| port | port |] |] eqn:Hi; try lia.
  - pose proof (spent_total_room _ _ _ Hi) as Hroom. simpl in Hroom.
    rewrite Hlen in Hroom. simpl. rewrite Z.mod_small by lia. lia.
  - destruct (port <? 65535); [destruct (bind_and_close (clock s) port) |];
      simpl; lia.
Qed.

Lemma cursor_grows_run more :
  forall s, ports_in_step c n s -> cursor s <= cursor (run' more s).
Proof.
  induction more as [| i rest IH]; intros s H; simpl; [lia |].
  pose proof (cursor_grows_step s i H).
  specialize (IH _ (in_step_step s i H)). lia.
Qed.

(** X11: under any schedule the shared cursor only grows, and it never gets
    further than one step per goroutine beyond 65534 (or beyond where it
    started, if that was higher): it does not wrap. *)
Theorem concurrent_cursor_grows_within_bounds schedule more :
  cursor (run' schedule (start c n))
    <= cursor (run' (schedule ++ more) (start c n)) /\
  cursor (run' (schedule ++ more) (start c n))
    <= Z.max c 65534 + Z.of_nat n /\
  cursor (run' (schedule ++ more) (start c n)) < uint32_modulus.
Proof.
  rewrite run_app.
  pose proof (in_step_run schedule _ in_step_start) as H1.
  pose proof (in_step_run more _ H1) as (Hlen & _ & Hhi & _).
  pose proof (spent_total_le (goroutines (run' more (run' schedule (start c n))))).
  split; [exact (cursor_grows_run more _ H1) |].
  split; lia.
Qed.

Lemma step_other s i j :
  j <> i -> goroutines (step' j s) !! i = goroutines s !! i.
Proof.
  intros Hne. unfold step.
  destruct (goroutines s !! j) as [[| port | port |] |]; try reflexivity.
  - simpl. apply list_lookup_insert_ne. exact Hne.
  - destruct (port <? 65535); [destruct (bind_and_close (clock s) port) |];
      simpl; apply list_lookup_insert_ne; exact Hne.
Qed.

Lemma step_own s i pc :
  ports_in_step c n s ->
  goroutines s !! i = Some pc ->
  exists pc',
    goroutines (step' i s) !! i = Some pc' /\
    (finished pc = true /\ pc' = pc \/
     moves_left (cursor (step' i s)) pc' + 1 <= moves_left (cursor s) pc).
Proof.
  intros (Hlen & Hlo & Hhi & Hrange & _) Hi.
  assert (Hlt : (i < length (goroutines s))%nat) by (eapply lookup_lt_Some; eauto).
  unfold step. rewrite Hi. destruct pc as [| port | port |].
  - pose proof (spent_total_room _ _ _ Hi) as Hroom. simpl in Hroom.
    rewrite Hlen in Hroom. rewrite Z.mod_small by lia.
    eexists. simpl. split; [apply list_lookup_insert_eq; exact Hlt |].
    right. simpl. lia.
  - specialize (Hrange _ _ _ Hi eq_refl).
    destruct (Z.ltb_spec port 65535) as [Hp | Hp];
      [destruct (bind_and_close (clock s) port) |];
      eexists; simpl; (split; [apply list_lookup_insert_eq; exact Hlt |]);
      right; simpl; lia.
  - exists (Returned port). split; [exact Hi | left; auto].
  - exists Panicking. split; [exact Hi | left; auto].
Qed.

Lemma run_finishes schedule i :
  forall s pc,
    ports_in_step c n s ->
    goroutines s !! i = Some pc ->
    moves_left (cursor s) pc <= Z.of_nat (picks i schedule) ->
    exists pc',
      goroutines (run' schedule s) !! i = Some pc' /\ finished pc' = true.
Proof.
  induction schedule as [| j rest IH]; intros s pc Hinv Hi Hm.
  - exists pc. split; [exact Hi |]. apply (moves_left_0 (cursor s)).
    simpl in Hm. lia.
  - simpl. pose proof (in_step_step s j Hinv) as Hinv'.
    unfold picks in Hm. destruct (Nat.eq_dec j i) as [-> | Hne].
    + rewrite count_occ_cons_eq in Hm by reflexivity.
      destruct (step_own s i pc Hinv Hi) as (pc' & Hi' & [[Hfin ->] | Hless]).
      * apply (IH _ pc Hinv' Hi').
        destruct pc; try discriminate Hfin; simpl; lia.
      * apply (IH _ pc' Hinv' Hi'). unfold picks. lia.
    + rewrite count_occ_cons_neq in Hm by exact Hne.
      apply (IH _ pc Hinv'); [rewrite step_other by exact Hne; exact Hi |].
      pose proof (cursor_grows_step s j Hinv) as Hg.
      pose proof (moves_left_cursor_grows _ _ pc Hg). unfold picks. lia.
Qed.

(** X12: no goroutine waits for another.  Whatever the others do and
    whatever the system answers, a goroutine that the scheduler picks
    2 * (65534 - c) + 2 times (twice if the cursor started at 65534 or
    above) has returned or panicked. *)
Theorem goroutine_finishes_within_bound schedule i :
  (i < n)%nat ->
  2 * Z.max 0 (65534 - c) + 2 <= Z.of_nat (picks i schedule) ->
  exists pc,
    goroutines (run' schedule (start c n)) !! i = Some pc /\
    finished pc = true.
Proof.
  intros Hi Hpicks.
  apply (run_finishes schedule i (start c n) AtAdd in_step_start).
  - simpl. apply lookup_replicate. auto.
  - exact Hpicks.
Qed.

End GoroutineMore.

(** ** Listeners and the launch *)

Section ListenersAndLaunch.

Variable net_Listen : World -> string -> bool.
Variable Listener_Close : World -> string -> bool.
Variable embed_NewConfig : embed.Config.
Variable embed_StartEtcd : World -> embed.Config -> option error.
Variable ReadyNotify_first : World -> embed.Etcd -> bool.
Variable Duration_String : Z -> string.

Local Abbreviation getFreePort' := (getFreePort net_Listen Listener_Close).
Local Abbreviation New' :=
  (NewEmbeddedEtcdInstance net_Listen Listener_Close embed_NewConfig
     embed_StartEtcd ReadyNotify_first Duration_String).

(** X13: a call never holds a listener of its own while etcd starts.  In the
    events of a call, however it ends, every listener opened is closed by
    the next event, so both probes are over before [embed.StartEtcd]. *)
Theorem instance_leaks_no_listener path w :
  closes_what_it_opens (events_of w (New' path w).2) = true.
Proof.
  pose proof (NewEmbeddedEtcdInstance_run net_Listen Listener_Close
                embed_NewConfig embed_StartEtcd ReadyNotify_first
                Duration_String path w) as Hrun.
  destruct (New' path w) as [r w'] eqn:H. simpl in *.
  inversion Hrun as [msg0 w1 H1 | p1 w1 msg0 w2 H1 H2
                     | p1 w1 p2 w2 res w0 H1 H2 Hl]; subst.
  - destruct (getFreePort_run _ _ _ _ _ H1) as (e1 & T1 & _ & F1).
    rewrite (events_of_app _ _ _ T1).
    exact (follows_closes_what_it_opens _ _ _ _ F1).
  - destruct (getFreePort_run _ _ _ _ _ H1) as (e1 & T1 & _ & F1).
    destruct (getFreePort_run _ _ _ _ _ H2) as (e2 & T2 & _ & F2).
    rewrite T1, <- app_assoc in T2. rewrite (events_of_app _ _ _ T2).
    rewrite closes_what_it_opens_app
      by exact (follows_closes_what_it_opens _ _ _ _ F1).
    exact (follows_closes_what_it_opens _ _ _ _ F2).
  - destruct (getFreePort_run _ _ _ _ _ H1) as (e1 & T1 & _ & F1).
    destruct (getFreePort_run _ _ _ _ _ H2) as (e2 & T2 & _ & F2).
    assert (exists tail, trace w' = trace w ++ e1 ++ e2 ++ tail /\
                         closes_what_it_opens tail = true) as (tail & T3 & Hc).
    { destruct Hl as [err w' Ht _ _ | w' etcd Ht _ _ | w' etcd ctx Ht _ _];
        rewrite T2, T1, <- !app_assoc in Ht; eexists; split;
        try exact Ht; reflexivity. }
    rewrite (events_of_app _ _ _ T3).
    rewrite closes_what_it_opens_app
      by exact (follows_closes_what_it_opens _ _ _ _ F1).
    rewrite closes_what_it_opens_app
      by exact (follows_closes_what_it_opens _ _ _ _ F2).
    exact Hc.
Qed.

End ListenersAndLaunch.

(** ** The context *)

Section ContextMade.

Variable net_Listen : World -> string -> bool.
Variable Listener_Close : World -> string -> bool.
Variable embed_NewConfig : embed.Config.
Variable embed_StartEtcd : World -> embed.Config -> option error.
Variable ReadyNotify_first : World -> embed.Etcd -> bool.
Variable Duration_String : Z -> string.

Local Abbreviation New' :=
  (NewEmbeddedEtcdInstance net_Listen Listener_Close embed_NewConfig
     embed_StartEtcd ReadyNotify_first Duration_String).

(** X15: a call makes a context only to return it.  When a context was
    made during a call, the call returns a descriptor with that context and
    a nil error, and making it was the last thing the call did, right after
    the instance it launched reported ready; no failing, timed-out or
    panicking call leaves a context behind. *)
Theorem context_made_only_for_descriptor path w r w' ctx :
  New' path w = (r, w') ->
  In (EvWithCancel ctx) (events_of w w') ->
  exists res bc pre cfg etcd,
    r = Return res /\
    res_err res = None /\
    res_config res = Some bc /\
    Ctx bc = ctx /\
    events_of w w' =
      pre ++ [EvStartEtcd cfg (inr etcd); EvReadyNotify etcd; EvWithCancel ctx] /\
    forallb alloc_event pre = true.
Proof.
  intros H Hin.
  destruct (NewEmbeddedEtcdInstance_events net_Listen Listener_Close
              embed_NewConfig embed_StartEtcd ReadyNotify_first
              Duration_String path w) as
    [(evs & Hev & Ha & _) | (p1 & p2 & w2 & evs & res & Hr & Ha & Ht2 & Hn2 & Hl)];
    rewrite H in *; simpl in *.
  { rewrite Hev in Hin. now apply (alloc_event_in _ _ Ha) in Hin. }
  subst r.
  assert (Hnot : ~ In (EvWithCancel ctx) evs).
  { intros Hi. now apply (alloc_event_in _ _ Ha) in Hi. }
  destruct Hl as [err w' Ht _ _ | w' etcd Ht _ _ | w' etcd ctx0 Ht _ _];
    rewrite Ht2, <- !app_assoc in Ht; rewrite (events_of_app _ _ _ Ht) in *;
    apply in_app_iff in Hin; destruct Hin as [Hin | Hin];
    try (destruct (Hnot Hin)); simpl in Hin;
    try (intuition discriminate).
  destruct Hin as [E | [E | [E | []]]]; try discriminate.
  injection E as <-.
  eexists _, _, evs, _, etcd. repeat split; try reflexivity. exact Ha.
Qed.

End ContextMade.

(** ** These theorems at work on the sample environment *)



Lemma getFreePort_wraps_to_port_0_witness :
  next (lastPort wrapped_world) = 0 /\
  (getFreePort all_free all_free wrapped_world).1 = Return 0.
Proof.
  split; [reflexivity |].
  exact (proj1 (getFreePort_wraps_to_port_0 all_free all_free wrapped_world
                  eq_refl (fun _ => eq_refl) (fun _ => eq_refl))).
Defined.

Lemma descriptor_or_error_witness :
  timed_out_run = (Return (result_of timed_out_run), timed_out_run.2) /\
  ((res_err (result_of timed_out_run) = None /\
    (exists bc, res_config (result_of timed_out_run) = Some bc) /\
    (exists teardown, res_cleanup (result_of timed_out_run) = Some teardown))
   \/ ((exists err, res_err (result_of timed_out_run) = Some err) /\
       res_config (result_of timed_out_run) = None /\
       res_cleanup (result_of timed_out_run) = None)).
Proof.
  split; [reflexivity |].
  exact (descriptor_or_error sample_Listen sample_Close sample_NewConfig
           launch_ok never_ready whole_seconds sample_path init_world
           (result_of timed_out_run) timed_out_run.2 eq_refl).
Defined.

Lemma instance_left_open_only_with_descriptor_witness :
  In (EvStartEtcd (listen_config sample_NewConfig sample_path 2381 2382)
        (inr (embed.EtcdRef 0)))
     (events_of init_world timed_out_run.2) /\
  existsb (closes_instance (embed.EtcdRef 0))
    (events_of init_world timed_out_run.2) =
    match res_err (result_of timed_out_run) with
    | Some _ => true
    | None => false
    end.
Proof.
  assert (Hin :
    In (EvStartEtcd (listen_config sample_NewConfig sample_path 2381 2382)
          (inr (embed.EtcdRef 0)))
       (events_of init_world timed_out_run.2)) by find_event.
  split; [exact Hin |].
  exact (proj2 (instance_left_open_only_with_descriptor sample_Listen
                  sample_Close sample_NewConfig launch_ok never_ready
                  whole_seconds sample_path init_world
                  (result_of timed_out_run) timed_out_run.2 _ _ eq_refl Hin)).
Defined.

Lemma ports_never_handed_out_twice_witness :
  first_port_run = (Return 2381, first_port_run.2) /\
  getFreePort sample_Listen sample_Close instance_after_port.2 =
    (Return 2384,
     (getFreePort sample_Listen sample_Close instance_after_port.2).2) /\
  2381 < 2384.
Proof.
  split; [(vm_compute; reflexivity) |]. split; [(vm_compute; reflexivity) |].
  apply (ports_never_handed_out_twice sample_Listen sample_Close
           sample_NewConfig launch_ok always_ready whole_seconds
           init_world 2381 first_port_run.2
           instance_after_port.2 2384
           (getFreePort sample_Listen sample_Close instance_after_port.2).2).
  - (vm_compute; reflexivity).
  - apply (went_on_instance _ _ _ _ _ _ sample_path first_port_run.2
             (result_of instance_after_port) instance_after_port.2);
      [(vm_compute; reflexivity) | apply went_on_here].
  - (vm_compute; reflexivity).
Defined.

Lemma instances_share_nothing_witness :
  Host (descriptor_of (result_of ready_run)) <>
  Host (descriptor_of (result_of second_run)) /\
  Ctx (descriptor_of (result_of ready_run)) <>
  Ctx (descriptor_of (result_of second_run)).
Proof.
  destruct (instances_share_nothing sample_Listen sample_Close
              sample_NewConfig launch_ok always_ready whole_seconds
              sample_path init_world (result_of ready_run) ready_run.2
              ready_run.2 "/tmp/etcd2" (result_of second_run) second_run.2
              (descriptor_of (result_of ready_run))
              (descriptor_of (result_of second_run)))
    as (_ & Hh & Hc & _).
  - (vm_compute; reflexivity).
  - apply went_on_here.
  - (vm_compute; reflexivity).
  - (vm_compute; reflexivity).
  - (vm_compute; reflexivity).
  - split; assumption.
Defined.

Lemma concurrent_ports_in_range_witness :
  goroutines (run sample_bind_and_close sample_schedule (start 2379 3)) !! 1%nat =
    Some (Returned 2383) /\
  2379 < 2383 < 65535.
Proof.
  split; [reflexivity |].
  apply (concurrent_ports_in_range sample_bind_and_close 2379 3)
    with (schedule := sample_schedule) (i := 1%nat).
  - lia.
  - rewrite uint32_modulus_eq. lia.
  - rewrite uint32_modulus_eq. lia.
  - reflexivity.
Defined.

Lemma concurrent_cursor_grows_within_bounds_witness :
  cursor (run sample_bind_and_close [0; 1]%nat (start 2379 3))
    <= cursor (run sample_bind_and_close ([0; 1] ++ [2; 2; 1])%nat (start 2379 3)).
Proof.
  apply (concurrent_cursor_grows_within_bounds sample_bind_and_close 2379 3).
  - lia.
  - rewrite uint32_modulus_eq. lia.
  - rewrite uint32_modulus_eq. lia.
Defined.

Lemma goroutine_finishes_within_bound_witness :
  2 * Z.max 0 (65534 - 65533) + 2 <= Z.of_nat (picks 0 late_schedule) /\
  exists pc,
    goroutines (run sample_bind_and_close late_schedule (start 65533 2)) !! 0%nat =
      Some pc /\
    finished pc = true.
Proof.
  assert (H : 2 * Z.max 0 (65534 - 65533) + 2 <= Z.of_nat (picks 0 late_schedule))
    by (vm_compute; discriminate).
  split; [exact H |].
  apply (goroutine_finishes_within_bound sample_bind_and_close 65533 2).
  - lia.
  - rewrite uint32_modulus_eq. lia.
  - rewrite uint32_modulus_eq. lia.
  - lia.
  - exact H.
Defined.


Lemma context_made_only_for_descriptor_witness :
  In (EvWithCancel (CtxRef 1)) (events_of init_world ready_run.2) /\
  exists res bc pre cfg etcd,
    ready_run.1 = Return res /\
    res_err res = None /\
    res_config res = Some bc /\
    Ctx bc = CtxRef 1 /\
    events_of init_world ready_run.2 =
      pre ++ [EvStartEtcd cfg (inr etcd); EvReadyNotify etcd;
              EvWithCancel (CtxRef 1)] /\
    forallb alloc_event pre = true.
Proof.
  assert (Hin : In (EvWithCancel (CtxRef 1)) (events_of init_world ready_run.2))
    by find_event.
  split; [exact Hin |].
  exact (context_made_only_for_descriptor sample_Listen sample_Close
           sample_NewConfig launch_ok always_ready whole_seconds sample_path
           init_world ready_run.1 ready_run.2 _ eq_refl Hin).
Defined.
